(** * Mustache template engine of the [web] package: parser and renderer

    A shallow embedding of [mustache.go].  Go strings are byte sequences and
    are modelled by [string] (a list of 8-bit characters); indices, lengths
    and line numbers are Go [int]s that never leave the range
    [0 .. 2 * len(data)], so they are modelled by [nat].  Values reached
    through package [reflect] are modelled by the inductive type [value];
    the file system, [path.Join], [fmt.Sprint] and [strconv.Quote] are
    parameters of the development. *)

From Stdlib Require Import Strings.String Strings.Ascii Lists.List Arith.Arith
  Bool.Bool Lia Numbers.DecimalString.
Import ListNotations.
Local Open Scope list_scope.
Local Open Scope string_scope.

Set Implicit Arguments.
Set Warnings "-register-all".

(* ================================================================= *)
(** ** Go strings *)

Module GoString.

Definition newline : ascii := "010"%char.
Definition cr : ascii := "013"%char.
Definition dquote : ascii := "034"%char.

(** [s[i]]: [None] stands for the run-time panic "index out of range". *)
Definition at_ (s : string) (i : nat) : option ascii := String.get i s.

(** [s[n:]] and [s[:n]] for [n <= len(s)]. *)
Fixpoint drop (n : nat) (s : string) : string :=
  match n, s with
  | O, _ => s
  | S n', String _ s' => drop n' s'
  | S _, EmptyString => EmptyString
  end.

Fixpoint take (n : nat) (s : string) : string :=
  match n, s with
  | O, _ => EmptyString
  | S n', String c s' => String c (take n' s')
  | S _, EmptyString => EmptyString
  end.

(** [s[a:b]] for [a <= b <= len(s)]. *)
Definition slice (s : string) (a b : nat) : string := take (b - a) (drop a s).

Fixpoint rev (s : string) : string :=
  match s with
  | EmptyString => EmptyString
  | String c s' => rev s' ++ String c EmptyString
  end.

Definition last (s : string) : option ascii := at_ s (String.length s - 1).

(** [strings.HasPrefix(s, pre)], returning the remainder. *)
Fixpoint stripPrefix (pre s : string) : option string :=
  match pre, s with
  | EmptyString, _ => Some s
  | String a pre', String b s' =>
      if Ascii.eqb a b then stripPrefix pre' s' else None
  | String _ _, EmptyString => None
  end.

(** Number of bytes equal to [c]. *)
Fixpoint count (c : ascii) (s : string) : nat :=
  match s with
  | EmptyString => 0
  | String d s' => (if Ascii.eqb d c then 1 else 0) + count c s'
  end.

(** [strings.Contains(s, sep)] for a one-byte separator. *)
Fixpoint containsByte (c : ascii) (s : string) : bool :=
  match s with
  | EmptyString => false
  | String d s' => Ascii.eqb d c || containsByte c s'
  end.

(** [strings.SplitN(s, sep, 2)] for a one-byte separator: [s] alone when
    the separator is absent, otherwise the text before and after its first
    occurrence. *)
Fixpoint cut (c : ascii) (s : string) : option (string * string) :=
  match s with
  | EmptyString => None
  | String d s' =>
      if Ascii.eqb d c then Some (EmptyString, s')
      else match cut c s' with
           | Some (a, b) => Some (String d a, b)
           | None => None
           end
  end.

Definition SplitN2 (s : string) (c : ascii) : list string :=
  match cut c s with
  | Some (a, b) => [a; b]
  | None => [s]
  end.

(** White space as [unicode.IsSpace] sees it in a UTF-8 byte string: the
    six ASCII characters, and the encodings of U+0085, U+00A0, U+1680,
    U+2000..U+200A, U+2028, U+2029, U+202F, U+205F and U+3000. *)
Definition asciiSpace (c : ascii) : bool :=
  let n := nat_of_ascii c in
  (Nat.leb 9 n && Nat.leb n 13) || Nat.eqb n 32.

Definition bytes (l : list nat) : string :=
  string_of_list_ascii (map ascii_of_nat l).

Definition unicodeSpaces : list string :=
  map bytes
    ([ [194; 133]; [194; 160]; [225; 154; 128] ]
     ++ map (fun k => [226; 128; 128 + k]) (seq 0 11)
     ++ [ [226; 128; 168]; [226; 128; 169]; [226; 128; 175];
          [226; 129; 159]; [227; 128; 128] ])%list.

Fixpoint firstStrip (pres : list string) (s : string) : option string :=
  match pres with
  | [] => None
  | pre :: pres' =>
      match stripPrefix pre s with
      | Some r => Some r
      | None => firstStrip pres' s
      end
  end.

(** One white-space rune removed from the front of [s], if there is one;
    [spaces] lists the multi-byte encodings to look for. *)
Definition stripSpace (spaces : list string) (s : string) : option string :=
  match s with
  | EmptyString => None
  | String c r => if asciiSpace c then Some r else firstStrip spaces s
  end.

Fixpoint trimFront (spaces : list string) (n : nat) (s : string) : string :=
  match n with
  | O => s
  | S n' =>
      match stripSpace spaces s with
      | Some r => trimFront spaces n' r
      | None => s
      end
  end.

Definition TrimLeft (s : string) : string :=
  trimFront unicodeSpaces (String.length s) s.

Definition TrimRight (s : string) : string :=
  rev (trimFront (map rev unicodeSpaces) (String.length s) (rev s)).

(** [strings.TrimSpace]. *)
Definition TrimSpace (s : string) : string := TrimRight (TrimLeft s).

(** Decimal rendering of a non-negative [int] (the verb [%d]). *)
Definition itoa (n : nat) : string := NilZero.string_of_uint (Nat.to_uint n).

End GoString.
Import GoString.

(* ================================================================= *)
(** ** Reflected values *)

(** A method of a type as package [reflect] lists it: its name, the number
    of inputs of its function type (the receiver included) and the first
    result of calling it without arguments, [None] when that call panics. *)
Record methodOf (V : Type) : Type := Method {
  m_Name : string;
  m_NumIn : nat;
  m_Call : option V
}.

(** The part of [reflect.Value] that the engine inspects.  [Invalid] is the
    zero [reflect.Value]; [Ptr Invalid] and [Interface Invalid] are the nil
    pointer and the nil interface, whose [Elem()] is the zero value.
    [Map m] is a map that a string key can index, [MapKeyed m] a map whose
    key type no string can be assigned to, so that [MapIndex] with a string
    panics.  [Named ms v] is a value [v] of a type whose method set is [ms].
    A struct, taken without embedded fields, carries its fields in
    declaration order, exported or not; the value of an unexported field
    is [Unexported v]: the value [v] under the read-only flag that package
    [reflect] sets on what is read through an unexported field.
    [Interface()] and method calls panic on such a value, and what is
    read out of it ([Elem], [FieldByName], [MapIndex]) carries the flag
    too. *)
Inductive value : Type :=
| Invalid
| Bool (b : bool)
| Int (n : nat)
| Str (s : string)
| Slice (l : list value)
| Array (l : list value)
| Map (m : list (string * value))
| Struct (fields : list (string * value))
| Ptr (elem : value)
| Interface (elem : value)
| Named (methods : list (methodOf value)) (v : value)
| MapKeyed (m : list (value * value))
| Unexported (v : value).

Fixpoint IsValid (v : value) : bool :=
  match v with
  | Invalid => false
  | Unexported u => IsValid u
  | _ => true
  end.

(** [v.CanInterface()]: whether [v.Interface()] returns instead of
    panicking. *)
Definition CanInterface (v : value) : bool :=
  match v with
  | Unexported _ => false
  | _ => true
  end.

(** The read-only flag handed down to what is read out of a value. *)
Definition taint (ro : bool) (v : value) : value :=
  if ro then
    match v with
    | Invalid => Invalid
    | Unexported _ => v
    | _ => Unexported v
    end
  else v.

(** The value without the method set of its type, on which [Kind()]
    dispatches. *)
Definition underlying (v : value) : value :=
  match v with
  | Named _ u => u
  | _ => v
  end.

Fixpoint methodsOf (v : value) : list (methodOf value) :=
  match v with
  | Named ms _ => ms
  | Unexported u => methodsOf u
  | _ => []
  end.

Fixpoint assoc (name : string) (m : list (string * value)) : value :=
  match m with
  | [] => Invalid
  | (k, v) :: m' => if String.eqb k name then v else assoc name m'
  end.

(** [v.FieldByName(name)] and [v.MapIndex(reflect.ValueOf(name))]: the zero
    value when the field or key is absent. *)
Definition FieldByName (fields : list (string * value)) (name : string) : value :=
  assoc name fields.

Definition MapIndex (m : list (string * value)) (name : string) : value :=
  assoc name m.


(* ================================================================= *)
(** ** Elements and templates *)

Record TemplateOf (E : Type) : Type := mkTemplate {
  data : string;
  otag : string;
  ctag : string;
  p : nat;
  curline : nat;
  dir : string;
  elems : list E
}.

Record sectionOf (E : Type) : Type := mkSection {
  name : string;
  inverted : bool;
  startline : nat;
  sec_elems : list E
}.

(** The four dynamic types an [interface{}] element can have:
    [*textElement], [*varElement], [*sectionElement] and [*Template]. *)
Inductive element : Type :=
| textElement (text : string)
| varElement (vname : string) (raw : bool)
| sectionElement (section : sectionOf element)
| partialElement (template : TemplateOf element).

Definition Template : Type := TemplateOf element.
Definition section_t : Type := sectionOf element.

Inductive error : Type :=
| parseError (line : nat) (message : string)
| errorString (s : string).

(** [Error()]. *)
Definition Error (e : error) : string :=
  match e with
  | parseError line message => "line " ++ itoa line ++ ": " ++ message
  | errorString s => s
  end.

(** Outcome of a call: a normal return, a returned [error], a run-time
    panic that leaves the call, or exhaustion of the recursion budget of
    the model. *)
Inductive result (A : Type) : Type :=
| Ok (a : A)
| Err (e : error)
| Panics
| OutOfFuel.

Arguments Err {A} e.
Arguments Panics {A}.
Arguments OutOfFuel {A}.

Unset Implicit Arguments.

(* ================================================================= *)
(** ** Scanner *)

Definition set_scan (t : Template) (p' curline' : nat) : Template :=
  mkTemplate (data t) (otag t) (ctag t) p' curline' (dir t) (elems t).

Definition set_p (t : Template) (p' : nat) : Template :=
  set_scan t p' (curline t).

Definition set_tags (t : Template) (o c : string) : Template :=
  mkTemplate (data t) o c (p t) (curline t) (dir t) (elems t).

Definition add_elem (t : Template) (e : element) : Template :=
  mkTemplate (data t) (otag t) (ctag t) (p t) (curline t) (dir t) (elems t ++ [e])%list.

Definition sec_add_elem (s : section_t) (e : element) : section_t :=
  mkSection (name s) (inverted s) (startline s) (sec_elems s ++ [e])%list.

(** The inner loop of [readString]: [s[j] == data[i+j]] for [j] from the
    given one up to [len(s) - 1]; [n] counts the remaining iterations. *)
Fixpoint matchRest (n : nat) (data s : string) (i j : nat) : option bool :=
  match n with
  | O => Some true
  | S n' =>
      match at_ s j, at_ data (i + j) with
      | Some a, Some b =>
          if Ascii.eqb a b then matchRest n' data s i (S j) else Some false
      | _, _ => None
      end
  end.

Inductive scanned : Type :=
| Match (i newlines : nat)
| NoMatch
| IndexPanic.

(** The outer loop of [readString] from index [i]; the loop leaves through
    its end-of-input test after at most [len(data) - i + 1] rounds, which
    is what [fuel] counts. *)
Fixpoint scan (fuel : nat) (data s : string) (i newlines : nat) : scanned :=
  match fuel with
  | O => NoMatch
  | S fuel' =>
      if Nat.ltb (String.length data) (i + String.length s) then NoMatch
      else
        match at_ data i, at_ s 0 with
        | Some d, Some s0 =>
            let newlines := if Ascii.eqb d newline then S newlines else newlines in
            if negb (Ascii.eqb d s0) then scan fuel' data s (S i) newlines
            else
              match matchRest (String.length s - 1) data s i 1 with
              | Some true => Match i newlines
              | Some false => scan fuel' data s (S i) newlines
              | None => IndexPanic
              end
        | _, _ => IndexPanic
        end
  end.

Inductive readResult : Type :=
| ReadOk (text : string) (t : Template)
| ReadEOF (text : string)
| ReadPanic.

Definition readString (template : Template) (s : string) : readResult :=
  match scan (S (String.length (data template) - p template))
             (data template) s (p template) 0 with
  | NoMatch => ReadEOF (drop (p template) (data template))
  | Match i newlines =>
      let e := i + String.length s in
      let text := slice (data template) (p template) e in
      ReadOk text (set_scan template e (curline template + newlines))
  | IndexPanic => ReadPanic
  end.

(* ================================================================= *)
(** ** Parser *)

(** What the parser asks of its surroundings: [path.Join] of two elements,
    whether [os.Open] succeeds on a path, the outcome of [ioutil.ReadFile],
    the value of the environment variable [CWD] and [strconv.Quote] (the
    verb [%q]). *)
Record Env : Type := mkEnv {
  path_Join : string -> string -> string;
  os_Open : string -> bool;
  ReadFile : string -> string + error;
  Getenv_CWD : string;
  Quote : string -> string
}.

(** [len(s) > i && s[i] == c]. *)
Definition byteIs (s : string) (i : nat) (c : ascii) : bool :=
  match at_ s i with
  | Some d => Ascii.eqb d c
  | None => false
  end.

(** [s[a:b]], [None] standing for the panic "slice bounds out of range". *)
Definition sliceChecked (s : string) (a b : nat) : option string :=
  if Nat.leb a b && Nat.leb b (String.length s) then Some (slice s a b) else None.

(** Number of leading bytes of [s] up to and including its last slash. *)
Fixpoint dirLen (s : string) : nat :=
  match s with
  | EmptyString => 0
  | String _ r => if containsByte "/" s then S (dirLen r) else 0
  end.

(** [path.Split]. *)
Definition path_Split (s : string) : string * string :=
  (take (dirLen s) s, drop (dirLen s) s).

(** The line break swallowed after a section tag: the position moves, the
    line counter does not. *)
Definition skipNewline (template : Template) : Template :=
  if byteIs (data template) (p template) newline
  then set_p template (p template + 1)
  else if byteIs (data template) (p template) cr
          && byteIs (data template) (p template + 1) newline
  then set_p template (p template + 2)
  else template.

(** The case ['='] of the tag switch, which [parse] and [parseSection]
    spell out in the same words. *)
Definition metaTag (template : Template) (tag : string) : result Template :=
  if negb (match last tag with Some c => Ascii.eqb c "=" | None => false end)
  then Err (parseError (curline template) "Invalid meta tag")
  else
    match sliceChecked tag 1 (String.length tag - 1) with
    | None => Panics
    | Some inner =>
        match SplitN2 (TrimSpace inner) " " with
        | [o; c] => Ok (set_tags template o c)
        | _ => Ok template
        end
    end.

(** The case ['{'] of the tag switch: the element to append, if any. *)
Definition rawTag (tag : string) : result (option element) :=
  if match last tag with Some c => Ascii.eqb c "}" | None => false end
  then match sliceChecked tag 1 (String.length tag - 1) with
       | None => Panics
       | Some n => Ok (Some (varElement n true))
       end
  else Ok None.

Definition newTemplate (data dir : string) : Template :=
  mkTemplate data "{{" "}}" 0 1 dir [].

Section Parser.

Variable env : Env.

Definition ParseFileWith (parse : Template -> result Template)
    (filename : string) : result Template :=
  match ReadFile env filename with
  | inr err => Err err
  | inl data => parse (newTemplate data (fst (path_Split filename)))
  end.

Definition partialFilenames (dir name : string) : list string :=
  [ path_Join env dir name;
    path_Join env dir (name ++ ".mustache");
    path_Join env dir (name ++ ".stache");
    name;
    name ++ ".mustache";
    name ++ ".stache" ].

Definition parsePartialWith (parse : Template -> result Template)
    (template : Template) (name : string) : result Template :=
  let filenames := partialFilenames (dir template) name in
  let filename :=
    match find (os_Open env) filenames with
    | Some f => f
    | None => ""
    end in
  if String.eqb filename ""
  then Err (errorString ("Could not find partial " ++ Quote env name))
  else ParseFileWith parse filename.

(** One round of the loop of [parseSection]; [parseSection'] and
    [parse'] stand for the calls the round makes, the next round of the
    loop among them. *)
Definition parseSectionRound
    (parseSection' : Template -> section_t -> result (Template * section_t))
    (parse' : Template -> result Template)
    (template : Template) (section : section_t)
    : result (Template * section_t) :=
  match readString template (otag template) with
  | ReadPanic => Panics
  | ReadEOF _ =>
      Err (parseError (startline section)
             ("Section " ++ name section ++ " has no closing tag"))
  | ReadOk text template =>
    let text := take (String.length text - String.length (otag template)) text in
    let section := sec_add_elem section (textElement text) in
    match (if byteIs (data template) (p template) "{"
           then readString template ("}" ++ ctag template)
           else readString template (ctag template)) with
    | ReadPanic => Panics
    | ReadEOF _ => Err (parseError (curline template) "unmatched open tag")
    | ReadOk text template =>
      let tag := TrimSpace
        (take (String.length text - String.length (ctag template)) text) in
      match tag with
      | EmptyString => Err (parseError (curline template) "empty tag")
      | String c0 rest =>
        if Ascii.eqb c0 "!" then parseSection' template section
        else if Ascii.eqb c0 "#" || Ascii.eqb c0 "^" then
          let tagname := TrimSpace rest in
          let template := skipNewline template in
          let se := mkSection tagname (Ascii.eqb c0 "^") (curline template) [] in
          match parseSection' template se with
          | Ok (template, se) =>
              parseSection' template (sec_add_elem section (sectionElement se))
          | Err e => Err e
          | Panics => Panics
          | OutOfFuel => OutOfFuel
          end
        else if Ascii.eqb c0 "/" then
          let tagname := TrimSpace rest in
          if negb (String.eqb tagname (name section))
          then Err (parseError (curline template)
                      ("interleaved closing tag: " ++ tagname))
          else Ok (template, section)
        else if Ascii.eqb c0 ">" then
          let tagname := TrimSpace rest in
          match parsePartialWith parse' template tagname with
          | Ok partial =>
              parseSection' template
                (sec_add_elem section (partialElement partial))
          | Err e => Err e
          | Panics => Panics
          | OutOfFuel => OutOfFuel
          end
        else if Ascii.eqb c0 "=" then
          match metaTag template tag with
          | Ok template => parseSection' template section
          | Err e => Err e
          | Panics => Panics
          | OutOfFuel => OutOfFuel
          end
        else if Ascii.eqb c0 "{" then
          match rawTag tag with
          | Ok (Some e) => parseSection' template (sec_add_elem section e)
          | Ok None => parseSection' template section
          | Err e => Err e
          | Panics => Panics
          | OutOfFuel => OutOfFuel
          end
        else
          parseSection' template (sec_add_elem section (varElement tag false))
      end
    end
  end.

(** One round of the loop of [parse]. *)
Definition parseRound
    (parseSection' : Template -> section_t -> result (Template * section_t))
    (parse' : Template -> result Template)
    (template : Template) : result Template :=
  match readString template (otag template) with
  | ReadPanic => Panics
  | ReadEOF text => Ok (add_elem template (textElement text))
  | ReadOk text template =>
    let text := take (String.length text - String.length (otag template)) text in
    let template := add_elem template (textElement text) in
    match (if byteIs (data template) (p template) "{"
           then readString template ("}" ++ ctag template)
           else readString template (ctag template)) with
    | ReadPanic => Panics
    | ReadEOF _ => Err (parseError (curline template) "unmatched open tag")
    | ReadOk text template =>
      let tag := TrimSpace
        (take (String.length text - String.length (ctag template)) text) in
      match tag with
      | EmptyString => Err (parseError (curline template) "empty tag")
      | String c0 rest =>
        if Ascii.eqb c0 "!" then parse' template
        else if Ascii.eqb c0 "#" || Ascii.eqb c0 "^" then
          let tagname := TrimSpace rest in
          let template := skipNewline template in
          let se := mkSection tagname (Ascii.eqb c0 "^") (curline template) [] in
          match parseSection' template se with
          | Ok (template, se) => parse' (add_elem template (sectionElement se))
          | Err e => Err e
          | Panics => Panics
          | OutOfFuel => OutOfFuel
          end
        else if Ascii.eqb c0 "/" then
          Err (parseError (curline template) "unmatched close tag")
        else if Ascii.eqb c0 ">" then
          let tagname := TrimSpace rest in
          match parsePartialWith parse' template tagname with
          | Ok partial => parse' (add_elem template (partialElement partial))
          | Err e => Err e
          | Panics => Panics
          | OutOfFuel => OutOfFuel
          end
        else if Ascii.eqb c0 "=" then
          match metaTag template tag with
          | Ok template => parse' template
          | Err e => Err e
          | Panics => Panics
          | OutOfFuel => OutOfFuel
          end
        else if Ascii.eqb c0 "{" then
          match rawTag tag with
          | Ok (Some e) => parse' (add_elem template e)
          | Ok None => parse' template
          | Err e => Err e
          | Panics => Panics
          | OutOfFuel => OutOfFuel
          end
        else
          parse' (add_elem template (varElement tag false))
      end
    end
  end.

(** [parseSection] and [parse]: one unit of [fuel] pays for one round of
    a loop; the calls made in that round get what is left. *)
Fixpoint parseSection (fuel : nat) (template : Template) (section : section_t)
    {struct fuel} : result (Template * section_t) :=
  match fuel with
  | O => OutOfFuel
  | S fuel' =>
      parseSectionRound (parseSection fuel') (parse fuel') template section
  end

with parse (fuel : nat) (template : Template) {struct fuel} : result Template :=
  match fuel with
  | O => OutOfFuel
  | S fuel' => parseRound (parseSection fuel') (parse fuel') template
  end.

Definition ParseFile (fuel : nat) (filename : string) : result Template :=
  ParseFileWith (parse fuel) filename.


Definition ParseString (fuel : nat) (data : string) : result Template :=
  parse fuel (newTemplate data (Getenv_CWD env)).

End Parser.

(* ================================================================= *)
(** ** Context resolver *)

(** The first method called [name] that takes the receiver alone. *)
Definition findMethod (name : string) (ms : list (methodOf value))
    : option (methodOf value) :=
  find (fun m => String.eqb (m_Name m) name && Nat.eqb (m_NumIn m) 1) ms.

(** What the walk down one frame of the chain ends in: a [return], a panic
    that the deferred [recover] turns into the zero value, or
    [continue Outer]. *)
Inductive frameResult : Type :=
| Return (v : value)
| Recovered
| NextFrame.

(** The loop [for v.IsValid()] on one frame.  [self] is the value the loop
    variable holds, [v] that value without its read-only flag and [ro] the
    flag: calling a method under the flag panics, and so does indexing a
    map that no string can index. *)
Fixpoint walkFrame (name : string) (ro : bool) (self v : value) {struct v}
    : frameResult :=
  match v with
  | Invalid => NextFrame
  | Unexported u => walkFrame name true self u
  | _ =>
      match findMethod name (methodsOf v) with
      | Some m =>
          if ro then Recovered
          else
            match m_Call m with
            | Some r => Return r
            | None => Recovered
            end
      | None =>
          if String.eqb name "." then Return self
          else
            match underlying v with
            | Ptr e => walkFrame name ro (taint ro e) e
            | Interface e => walkFrame name ro (taint ro e) e
            | Struct fields =>
                let ret := FieldByName fields name in
                if IsValid ret then Return (taint ro ret) else NextFrame
            | Map m =>
                let ret := MapIndex m name in
                if IsValid ret then Return (taint ro ret) else NextFrame
            | MapKeyed _ => Recovered
            | _ => NextFrame
            end
      end
  end.

Definition lookupFrame (name : string) (v : value) : frameResult :=
  walkFrame name false v v.

(** The loop [Outer] of [lookup]. *)
Fixpoint lookupChain (name : string) (contextChain : list value) : value :=
  match contextChain with
  | [] => Invalid
  | ctx :: rest =>
      match lookupFrame name ctx with
      | Return v => v
      | Recovered => Invalid
      | NextFrame => lookupChain name rest
      end
  end.

(** [lookup] with the depth of its recursion on dotted names bounded by
    [fuel]; each call strips one segment, so [len(name)] is enough. *)
Fixpoint lookupFuel (fuel : nat) (contextChain : list value) (name : string)
    : value :=
  if negb (String.eqb name ".") && containsByte "." name then
    match fuel, SplitN2 name "." with
    | S fuel', [head; rest] =>
        let v := lookupFuel fuel' contextChain head in
        lookupFuel fuel' [v] rest
    | _, _ => Invalid
    end
  else lookupChain name contextChain.

Definition lookup (contextChain : list value) (name : string) : value :=
  lookupFuel (String.length name) contextChain name.

Fixpoint indirect (v : value) : value :=
  match v with
  | Unexported u => taint true (indirect u)
  | _ =>
      match underlying v with
      | Ptr e => indirect e
      | Interface e => indirect e
      | _ => v
      end
  end.

(** [v.Interface() == nil]: only a nil interface boxes to nil. *)
Definition InterfaceIsNil (v : value) : bool :=
  match underlying v with
  | Interface Invalid => true
  | _ => false
  end.

(** [isEmpty]; [None] when [v.Interface()] panics. *)
Definition isEmpty (v : value) : option bool :=
  if negb (IsValid v) then Some true
  else if negb (CanInterface v) then None
  else if InterfaceIsNil v then Some true
  else
    let valueInd := indirect v in
    if negb (IsValid valueInd) then Some true
    else
      match underlying valueInd with
      | Bool b => Some (negb b)
      | Slice l => Some (Nat.eqb (List.length l) 0)
      | _ => Some false
      end.

(* ================================================================= *)
(** ** Renderer *)

Fixpoint replaceByte (c : ascii) (by_ : string) (s : string) : string :=
  match s with
  | EmptyString => EmptyString
  | String d s' =>
      (if Ascii.eqb d c then by_ else String d EmptyString) ++ replaceByte c by_ s'
  end.

(** Modelled from the spec: [htmlEscape], which [renderElement] calls, is
    defined in no source file at hand.  The spec has a variable HTML-escaped
    by the substitutions ampersand to [&amp;], double quote to [&quot;],
    apostrophe to [&apos;], less-than to [&lt;] and greater-than to [&gt;],
    the ampersand substituted first; the
    texts written are the package variables [esc_amp], [esc_quot],
    [esc_apos], [esc_lt] and [esc_gt]. *)
Definition htmlEscape (s : string) : string :=
  replaceByte ">" "&gt;"
    (replaceByte "<" "&lt;"
       (replaceByte "'" "&apos;"
          (replaceByte dquote "&quot;"
             (replaceByte "&" "&amp;" s)))).

Section Renderer.

(** [fmt.Sprint(val.Interface())]. *)
Variable Sprint : value -> string.

Definition render_t : Type := element -> list value -> string -> result string.

(** [for _, elem := range elems { renderElement(elem, contextChain, buf) }] *)
Definition renderElems (render : render_t)
    : list element -> list value -> string -> result string :=
  fix go (elems : list element) (contextChain : list value) (buf : string) :=
    match elems with
    | [] => Ok buf
    | elem :: elems' =>
        match render elem contextChain buf with
        | Ok buf' => go elems' contextChain buf'
        | r => r
        end
    end.

(** The closing loop of [renderSection]: [chain2] is [contextChain]
    shifted by one, its first cell overwritten by each context in turn. *)
Definition renderContexts (render : render_t) (elems : list element)
    (contextChain : list value) : list value -> string -> result string :=
  fix go (contexts : list value) (buf : string) :=
    match contexts with
    | [] => Ok buf
    | ctx :: contexts' =>
        match renderElems render elems (ctx :: contextChain) buf with
        | Ok buf' => go contexts' buf'
        | r => r
        end
    end.

Definition renderSectionWith (render : render_t) (section : section_t)
    (contextChain : list value) (buf : string) : result string :=
  let value := lookup contextChain (name section) in
  (* contextChain[len(contextChain)-1]: index -1 panics on an empty chain *)
  match nth_error contextChain (List.length contextChain - 1) with
  | None => Panics
  | Some context =>
      match isEmpty value with
      | None => Panics
      | Some isEmpty =>
          if isEmpty && negb (inverted section)
             || negb isEmpty && inverted section
          then Ok buf
          else
            let contexts :=
              if negb (inverted section) then
                match underlying (indirect value) with
                | Slice l => l
                | Array l => l
                | Map _ | MapKeyed _ | Struct _ => [value]
                | _ => [context]
                end
              else [context] in
            renderContexts render (sec_elems section) contextChain contexts buf
      end
  end.

Fixpoint renderElement (element : element) (contextChain : list value)
    (buf : string) {struct element} : result string :=
  match element with
  | textElement text => Ok (buf ++ text)
  | varElement vname raw =>
      let val := lookup contextChain vname in
      if IsValid val then
        (* val.Interface() panics under the read-only flag, before
           anything is written; the deferred recover ends the call *)
        if negb (CanInterface val) then Ok buf
        else if raw then Ok (buf ++ Sprint val)
        else Ok (buf ++ htmlEscape (Sprint val))
      else Ok buf
  | sectionElement section =>
      renderSectionWith renderElement section contextChain buf
  | partialElement template =>
      renderElems renderElement (elems template) contextChain buf
  end.

Definition renderSection : section_t -> list value -> string -> result string :=
  renderSectionWith renderElement.

Definition renderTemplate (template : Template) (contextChain : list value)
    (buf : string) : result string :=
  renderElems renderElement (elems template) contextChain buf.

(** The method [Render]; [context] holds [reflect.ValueOf] of each
    argument, the zero value for a nil argument. *)
Definition Template_Render (template : Template) (context : list value)
    : result string :=
  renderTemplate template context "".

(** The function [Render]. *)
Definition Render (env : Env) (fuel : nat) (data : string)
    (context : list value) : result string :=
  match ParseString env fuel data with
  | Ok template => Template_Render template context
  | Err err => Ok (Error err)
  | Panics => Panics
  | OutOfFuel => OutOfFuel
  end.

End Renderer.

(** An environment without files, and a [fmt.Sprint] for strings, booleans,
    integers and what interfaces hold. *)
Definition noFiles : Env :=
  mkEnv (fun d n => d ++ "/" ++ n) (fun _ => false)
        (fun f => inr (errorString ("open " ++ f ++ ": no such file or directory")))
        "" (fun s => String dquote s ++ String dquote "").

Fixpoint SprintScalar (v : value) : string :=
  match v with
  | Str s => s
  | Bool true => "true"
  | Bool false => "false"
  | Int n => itoa n
  | Interface e => SprintScalar e
  | Named _ u => SprintScalar u
  | Unexported u => SprintScalar u
  | _ => ""
  end.

(** [strings.HasPrefix]. *)
Definition hasPrefix (pre s : string) : bool :=
  match stripPrefix pre s with
  | Some _ => true
  | None => false
  end.

(** Among the ways of writing [x] as [pre ++ s ++ post], the one with the
    shortest [pre]: the next occurrence of [s] in [x]. *)
Definition nextOccurrence (s x pre post : string) : Prop :=
  x = pre ++ s ++ post /\
  forall pre' post', x = pre' ++ s ++ post' ->
                     String.length pre <= String.length pre'.

(** [s] occurs nowhere in [x]. *)
Definition absent (s x : string) : Prop :=
  forall pre post, x <> pre ++ s ++ post.

(** The invariant of the delimiter pair. *)
Definition delimsOk (t : Template) : Prop := otag t <> "" /\ ctag t <> "".

(** [g] returns what [f] returns wherever [f] has fuel enough to return. *)
Definition extends {A B : Type} (f g : A -> result B) : Prop :=
  forall a r, f a = r -> r <> OutOfFuel -> g a = r.

Definition extends2 {A B C : Type} (f g : A -> B -> result C) : Prop :=
  forall a b r, f a b = r -> r <> OutOfFuel -> g a b = r.

(** The form the spec asks of a delimiter-change tag: the new open
    delimiter, a space, the new close delimiter, flanked by [=]. *)
Definition metaForm (tag : string) : Prop :=
  exists o c, tag = "=" ++ o ++ " " ++ c ++ "="
              /\ o <> "" /\ c <> ""
              /\ containsByte " " o = false /\ containsByte " " c = false.

(** A printable ASCII byte other than white space and the closing brace. *)
Definition plainByte (c : ascii) : bool :=
  let n := nat_of_ascii c in
  Nat.leb 33 n && Nat.leb n 126 && negb (Nat.eqb n 125).

Fixpoint plain (s : string) : bool :=
  match s with
  | EmptyString => true
  | String c s' => plainByte c && plain s'
  end.

(** A small file system to run the parser on: [path.Join] on clean
    relative paths, three template files, [CWD] unset. *)
Definition joinClean (d n : string) : string :=
  if String.eqb d "" then n
  else match GoString.last d with
       | Some "/"%char => d ++ n
       | _ => d ++ "/" ++ n
       end.




(** Whether rendering an element reaches a section: the element is one, or
    it is a partial whose elements reach one. *)
Fixpoint hasSection (e : element) : bool :=
  match e with
  | sectionElement _ => true
  | partialElement t => existsb hasSection (elems t)
  | _ => false
  end.

Fixpoint joinText (l : list string) : string :=
  match l with
  | [] => ""
  | x :: l' => x ++ joinText l'
  end.

(** The literal text of an element, partials inlined. *)
Fixpoint textOf (e : element) : string :=
  match e with
  | textElement s => s
  | partialElement t => joinText (map textOf (elems t))
  | _ => ""
  end.

(** The text one byte is escaped to. *)
Definition escapeByte (c : ascii) : string :=
  if Ascii.eqb c "&" then "&amp;"
  else if Ascii.eqb c dquote then "&quot;"
  else if Ascii.eqb c "'" then "&apos;"
  else if Ascii.eqb c "<" then "&lt;"
  else if Ascii.eqb c ">" then "&gt;"
  else String c "".

Fixpoint escapeEach (s : string) : string :=
  match s with
  | EmptyString => EmptyString
  | String c s' => escapeByte c ++ escapeEach s'
  end.

(** The kinds [renderSection] neither iterates over nor pushes. *)
Definition isScalar (v : value) : bool :=
  match underlying v with
  | Slice _ | Array _ | Map _ | MapKeyed _ | Struct _ => false
  | _ => true
  end.

(** The test that opens [lookup]: the name is not [.] and holds a dot. *)
Definition dotted (name : string) : bool :=
  negb (String.eqb name ".") && containsByte "." name.

(* ================================================================= *)
(** ** Layouts, files and the helpers of the package *)

Section Layout.

(** [fmt.Sprint(val.Interface())]. *)
Variable Sprint : value -> string.

(** The method [RenderInLayout]: the content is rendered first, and the
    layout is rendered under the map [{"content": content}] put in front
    of the contexts. *)
Definition Template_RenderInLayout (template layout : Template)
    (context : list value) : result string :=
  match Template_Render Sprint template context with
  | Ok content =>
      Template_Render Sprint layout (Map [("content", Str content)] :: context)
  | r => r
  end.

(** The function [RenderInLayout]: the layout is parsed before the
    template, and the first parse error is returned as the output. *)
Definition RenderInLayout (env : Env) (fuel : nat) (data layoutData : string)
    (context : list value) : result string :=
  match ParseString env fuel layoutData with
  | Ok layout =>
      match ParseString env fuel data with
      | Ok template => Template_RenderInLayout template layout context
      | Err err => Ok (Error err)
      | Panics => Panics
      | OutOfFuel => OutOfFuel
      end
  | Err err => Ok (Error err)
  | Panics => Panics
  | OutOfFuel => OutOfFuel
  end.



End Layout.

(** [cleanPath]: the path between two slashes. *)
Definition cleanPath (path : string) : string :=
  let path :=
    if Nat.ltb 0 (String.length path) then
      if negb (byteIs path 0 "/") then "/" ++ path else path
    else "/" in
  (* pos := len(path) - 1 *)
  if Nat.leb 1 (String.length path) then
    if negb (byteIs path (String.length path - 1) "/") then path ++ "/" else path
  else "/".

(** [contentType]; [TypeByExtension] is [mime.TypeByExtension]. *)
Definition contentType (TypeByExtension : string -> string) (val : string)
    : string :=
  if containsByte "/" val then val
  else
    let val := if negb (hasPrefix "." val) then "." ++ val else val in
    TypeByExtension val.

(* ================================================================= *)
(** ** Vocabulary of the further properties *)

(** [t'] is a later state of the scan of [t]: the same input and base
    directory, the position no further back and still inside the input if
    it was, the elements of [t] followed by more. *)
Definition follows (t t' : Template) : Prop :=
  data t' = data t /\ dir t' = dir t /\ p t <= p t'
  /\ (p t <= String.length (data t) -> p t' <= String.length (data t))
  /\ exists more, elems t' = (elems t ++ more)%list.

Definition followsS (t t' : Template) : Prop :=
  follows t t' /\ elems t' = elems t.

(** [sec'] is [sec] with more elements. *)
Definition secGrows (sec sec' : section_t) : Prop :=
  name sec' = name sec /\ inverted sec' = inverted sec
  /\ startline sec' = startline sec
  /\ exists more, sec_elems sec' = (sec_elems sec ++ more)%list.

(** The bytes of the input not yet read. *)
Definition remaining (t : Template) : nat := String.length (data t) - p t.

(** What every successful call of a parsing function keeps. *)
Definition keepsS
    (ps : Template -> section_t -> result (Template * section_t)) : Prop :=
  forall t sec t' sec',
    ps t sec = Ok (t', sec') -> followsS t t' /\ secGrows sec sec'.

Definition keeps (pa : Template -> result Template) : Prop :=
  forall t t', pa t = Ok t' -> follows t t'.

(** [t'] comes after [t] in a parse: it follows it and has non-empty
    delimiters if [t] has. *)
Definition after (t t' : Template) : Prop :=
  follows t t' /\ (delimsOk t -> delimsOk t').

(** The state [t] has non-empty delimiters and fewer than [n] bytes left. *)
Definition within (n : nat) (t : Template) : Prop :=
  delimsOk t /\ remaining t < n.

(** A file system with one template that includes itself. *)
Definition loopFiles : Env :=
  mkEnv joinClean
        (fun f => String.eqb f "loop")
        (fun f => if String.eqb f "loop" then inl "{{>loop}}"
                  else inr (errorString ("open " ++ f ++ ": no such file or directory")))
        ""
        (fun s => String dquote s ++ String dquote "").

(** ** Flat templates: text, variables, raw variables and comments *)






(** A variable name the tag switch sends to its default case. *)
Definition isVarName (n : string) : bool :=
  match n with
  | EmptyString => false
  | String c _ =>
      plain n
      && negb (existsb (Ascii.eqb c)
                 ["!"; "#"; "^"; "/"; ">"; "="; "{"]%char)
  end.


Definition noBrace (s : string) : bool := negb (containsByte "{" s).


Section Expand.

Variable Sprint : value -> string.
Variable chain : list value.



End Expand.

(** A printable ASCII byte other than white space. *)
Definition solidByte (c : ascii) : bool :=
  let n := nat_of_ascii c in Nat.leb 33 n && Nat.leb n 126.

(** The last frame of a chain, which [renderSection] indexes. *)
Definition lastFrame (chain : list value) : option value :=
  nth_error chain (List.length chain - 1).

(** Two chains that resolve every undotted name alike and end in the same
    frame. *)
Definition sameView (ch1 ch2 : list value) : Prop :=
  (forall name, lookupChain name ch1 = lookupChain name ch2)
  /\ lastFrame ch1 = lastFrame ch2.

(** [strings.Join(segments, ".")]. *)
Fixpoint joinDots (k : string) (ks : list string) : string :=
  match ks with
  | [] => k
  | k' :: ks' => k ++ "." ++ joinDots k' ks'
  end.



(** Rendering [e] cannot tell two chains that look alike apart. *)
Definition rendersAlike (Sprint : value -> string) (e : element) : Prop :=
  forall ch1 ch2 buf,
    sameView ch1 ch2 ->
    renderElement Sprint e ch1 buf = renderElement Sprint e ch2 buf.

(** ** The next tag *)

(** The state [readString] leaves behind text [text] and marker
    [marker]. *)
Definition afterText (t : Template) (text marker : string) : Template :=
  set_scan t (p t + String.length text + String.length marker)
    (curline t + (count newline text
                  + (if byteIs marker 0 newline then 1 else 0))).

(** What lies ahead of [t] is text [pre], the open delimiter, a tag
    [body] that does not start with a brace, the close delimiter and
    [rest]; the delimiters are taken where they first occur. *)
Definition tagAhead (t : Template) (pre body rest : string) : Prop :=
  otag t <> "" /\ ctag t <> ""
  /\ exists post,
       nextOccurrence (otag t) (drop (p t) (data t)) pre post
       /\ byteIs post 0 "{" = false
       /\ nextOccurrence (ctag t) post body rest.

(** The state of [parse] after the tag ahead, the text before it appended
    as an element, and the state of [parseSection], which appends to the
    section. *)
Definition afterTag (t : Template) (pre body : string) : Template :=
  afterText (add_elem (afterText t pre (otag t)) (textElement pre))
    body (ctag t).

Definition afterTagS (t : Template) (pre body : string) : Template :=
  afterText (afterText t pre (otag t)) body (ctag t).



(** ** Templates with sections, written on one line *)

Inductive tnode : Type :=
| TVar (n : string)
| TRaw (n : string)
| TComment (c : string)
| TSection (inv : bool) (nm : string) (body : tdoc)
with tdoc : Type :=
| TEnd (final : string)
| TCons (pre : string) (q : tnode) (rest : tdoc).

Scheme tnode_tdoc_ind := Induction for tnode Sort Prop
  with tdoc_tnode_ind := Induction for tdoc Sort Prop.

Definition sectionMark (inv : bool) : ascii := if inv then "^"%char else "#"%char.

(** The template text of a tree. *)
Fixpoint printNode (q : tnode) : string :=
  match q with
  | TVar n => "{{" ++ n ++ "}}"
  | TRaw n => "{{{" ++ n ++ "}}}"
  | TComment c => "{{!" ++ c ++ "}}"
  | TSection inv nm body =>
      "{{" ++ String (sectionMark inv) nm ++ "}}" ++ printDoc body
      ++ "{{/" ++ nm ++ "}}"
  end
with printDoc (d : tdoc) : string :=
  match d with
  | TEnd final => final
  | TCons pre q rest => pre ++ printNode q ++ printDoc rest
  end.

(** The elements of a tree whose tags all stand on line [line]. *)
Fixpoint nodeElems (line : nat) (q : tnode) : list element :=
  match q with
  | TVar n => [varElement n false]
  | TRaw n => [varElement n true]
  | TComment _ => []
  | TSection inv nm body =>
      [sectionElement (mkSection nm inv line (docElemsOf line body))]
  end
with docElemsOf (line : nat) (d : tdoc) : list element :=
  match d with
  | TEnd final => [textElement final]
  | TCons pre q rest =>
      (textElement pre :: nodeElems line q ++ docElemsOf line rest)%list
  end.

(** Literal text without an opening brace and without a newline. *)
Definition inlineText (s : string) : bool :=
  noBrace s && negb (containsByte newline s).

Fixpoint nodeWf (q : tnode) : bool :=
  match q with
  | TVar n => isVarName n
  | TRaw n => plain n
  | TComment c => plain c
  | TSection _ nm body => plain nm && docWf body
  end
with docWf (d : tdoc) : bool :=
  match d with
  | TEnd final => inlineText final
  | TCons pre q rest => inlineText pre && nodeWf q && docWf rest
  end.

(** Rounds of the parsing loops a tree takes. *)
Fixpoint nodeSize (q : tnode) : nat :=
  match q with
  | TSection _ _ body => docSize body
  | _ => 0
  end
with docSize (d : tdoc) : nat :=
  match d with
  | TEnd _ => 1
  | TCons _ q rest => S (nodeSize q + docSize rest)
  end.

(** The statements proved of a tree: parsed at the top level, and parsed
    as the body of a section up to its closing tag. *)
Definition parsesTop (env : Env) (d : tdoc) : Prop :=
  forall fuel t,
    docSize d <= fuel ->
    otag t = "{{" -> ctag t = "}}" ->
    drop (p t) (data t) = printDoc d ->
    exists t',
      parse env fuel t = Ok t'
      /\ elems t' = (elems t ++ docElemsOf (curline t) d)%list
      /\ otag t' = "{{" /\ ctag t' = "}}".

Definition parsesBody (env : Env) (d : tdoc) : Prop :=
  forall fuel t sec rest,
    docSize d <= fuel ->
    otag t = "{{" -> ctag t = "}}" ->
    plain (name sec) = true ->
    drop (p t) (data t) = printDoc d ++ "{{/" ++ name sec ++ "}}" ++ rest ->
    exists q',
      parseSection env fuel t sec
      = Ok (set_scan t q' (curline t),
            mkSection (name sec) (inverted sec) (startline sec)
              (sec_elems sec ++ docElemsOf (curline t) d))
      /\ drop q' (data t) = rest.



Section TreeExpand.

Variable Sprint : value -> string.


End TreeExpand.

(** Text without the line break that [parse] and [parseSection] drop
    after the tag that opens a section. *)
Definition afterNewline (s : string) : string :=
  match s with
  | String c r =>
      if Ascii.eqb c newline then r
      else match r with
           | String c' r' =>
               if Ascii.eqb c cr && Ascii.eqb c' newline then r' else s
           | EmptyString => s
           end
  | EmptyString => s
  end.



(* ================================================================= *)
(** * Properties *)

(** ** Strings *)

Section StringFacts.

Lemma append_nil_r (s : string) : s ++ "" = s.
Proof. induction s as [|c s IH]; simpl; [reflexivity | now rewrite IH]. Qed.

Lemma append_assoc (a b c : string) : (a ++ b) ++ c = a ++ (b ++ c).
Proof. induction a as [|x a IH]; simpl; [reflexivity | now rewrite IH]. Qed.

Lemma length_append (a b : string) :
  String.length (a ++ b) = String.length a + String.length b.
Proof. induction a as [|x a IH]; simpl; [reflexivity | now rewrite IH]. Qed.

Lemma length_zero (s : string) : String.length s = 0 -> s = "".
Proof. destruct s; simpl; [reflexivity | discriminate]. Qed.

Lemma drop_nil (n : nat) : drop n "" = "".
Proof. destruct n; reflexivity. Qed.

Lemma take_nil (n : nat) : take n "" = "".
Proof. destruct n; reflexivity. Qed.

Lemma take_drop (n : nat) (s : string) : take n s ++ drop n s = s.
Proof.
  revert s; induction n as [|n IH]; intros [|c s]; simpl; try reflexivity.
  now rewrite IH.
Qed.

Lemma length_drop (n : nat) (s : string) :
  String.length (drop n s) = String.length s - n.
Proof.
  revert s; induction n as [|n IH]; intros [|c s]; simpl; try reflexivity.
  apply IH.
Qed.

Lemma length_take (n : nat) (s : string) :
  String.length (take n s) = Nat.min n (String.length s).
Proof.
  revert s; induction n as [|n IH]; intros [|c s]; simpl; try reflexivity.
  now rewrite IH.
Qed.

Lemma drop_length_append (a b : string) : drop (String.length a) (a ++ b) = b.
Proof. induction a as [|x a IH]; simpl; [reflexivity | exact IH]. Qed.

Lemma take_length_append (a b : string) : take (String.length a) (a ++ b) = a.
Proof. induction a as [|x a IH]; simpl; [reflexivity | now rewrite IH]. Qed.

Lemma drop_drop (n m : nat) (s : string) : drop n (drop m s) = drop (m + n) s.
Proof.
  revert s; induction m as [|m IH]; intros s; simpl; [reflexivity|].
  destruct s as [|c s]; [now rewrite drop_nil | apply IH].
Qed.

Lemma drop_all (n : nat) (s : string) : String.length s <= n -> drop n s = "".
Proof.
  revert s; induction n as [|n IH]; intros [|c s] H; simpl in *;
    try reflexivity; [lia | apply IH; lia].
Qed.

Lemma take_all (n : nat) (s : string) : String.length s <= n -> take n s = s.
Proof.
  revert s; induction n as [|n IH]; intros [|c s] H; simpl in *;
    try reflexivity; [lia | rewrite IH; [reflexivity | lia]].
Qed.

(** [s[i]] is the first byte of [s[i:]]. *)
Lemma at_drop (s : string) (i : nat) :
  at_ s i = match drop i s with String c _ => Some c | EmptyString => None end.
Proof.
  unfold at_; revert s; induction i as [|i IH]; intros [|c s]; simpl;
    try reflexivity.
  apply IH.
Qed.

Lemma drop_S (s : string) (i : nat) (c : ascii) (r : string) :
  drop i s = String c r -> drop (S i) s = r.
Proof.
  intros H. replace (S i) with (i + 1) by lia.
  rewrite <- drop_drop, H. reflexivity.
Qed.

Lemma drop_cons_lt (s : string) (i : nat) :
  i < String.length s -> exists c, drop i s = String c (drop (S i) s).
Proof.
  intros H. destruct (drop i s) as [|c r] eqn:E.
  - pose proof (length_drop i s) as L. rewrite E in L. simpl in L. lia.
  - exists c. now rewrite (drop_S _ _ _ _ E).
Qed.

Lemma hasPrefix_append (s post : string) : hasPrefix s (s ++ post) = true.
Proof.
  unfold hasPrefix. induction s as [|c s IH]; simpl; [reflexivity|].
  now rewrite Ascii.eqb_refl.
Qed.

Lemma stripPrefix_Some (s x r : string) :
  stripPrefix s x = Some r -> x = s ++ r.
Proof.
  revert x; induction s as [|c s IH]; intros x H; simpl in *.
  - now inversion H.
  - destruct x as [|d x]; [discriminate|].
    destruct (Ascii.eqb_spec c d); [|discriminate].
    subst. now rewrite (IH _ H).
Qed.

Lemma hasPrefix_true (s x : string) :
  hasPrefix s x = true -> exists post, x = s ++ post.
Proof.
  unfold hasPrefix. destruct (stripPrefix s x) as [r|] eqn:E; [|discriminate].
  intros _. exists r. now apply stripPrefix_Some.
Qed.

Lemma hasPrefix_cons (a b : ascii) (s x : string) :
  hasPrefix (String a s) (String b x) = Ascii.eqb a b && hasPrefix s x.
Proof. unfold hasPrefix; simpl. now destruct (Ascii.eqb a b). Qed.

(** An occurrence of [s] at offset [k] of [x], in both readings. *)
Lemma occurrence_hasPrefix (s x pre post : string) :
  x = pre ++ s ++ post -> hasPrefix s (drop (String.length pre) x) = true.
Proof. intros ->. rewrite drop_length_append. apply hasPrefix_append. Qed.

Lemma hasPrefix_occurrence (s x : string) (k : nat) :
  k <= String.length x -> hasPrefix s (drop k x) = true ->
  exists post, x = take k x ++ s ++ post /\ String.length (take k x) = k.
Proof.
  intros Hk H. destruct (hasPrefix_true _ _ H) as [post E].
  exists post. split.
  - rewrite <- E. symmetry. apply take_drop.
  - rewrite length_take. lia.
Qed.


End StringFacts.

(** ** Scanner *)

Section ScannerFacts.

Variables data s : string.

Lemma matchRest_hasPrefix (i : nat) :
  i + String.length s <= String.length data ->
  forall n j, n + j = String.length s ->
    matchRest n data s i j = Some (hasPrefix (drop j s) (drop (i + j) data)).
Proof.
  intros Hi. induction n as [|n IH]; intros j Hj; simpl.
  - rewrite (drop_all j s) by lia. reflexivity.
  - destruct (drop_cons_lt s j) as [a Ea]; [lia|].
    destruct (drop_cons_lt data (i + j)) as [b Eb]; [lia|].
    rewrite (at_drop s j), (at_drop data (i + j)), Ea, Eb.
    rewrite hasPrefix_cons.
    destruct (Ascii.eqb a b); simpl; [|reflexivity].
    rewrite IH by lia. now rewrite Nat.add_succ_r.
Qed.

(** One round of the loop at an index where the marker still fits. *)
Lemma scan_round (fuel i newlines : nat) (d : ascii) (r : string) :
  s <> "" ->
  drop i data = String d r ->
  String.length s <= String.length (String d r) ->
  scan (S fuel) data s i newlines =
    let newlines' := if Ascii.eqb d newline then S newlines else newlines in
    if hasPrefix s (String d r) then Match i newlines'
    else scan fuel data s (S i) newlines'.
Proof.
  intros Hs E Hlen.
  assert (Hi : i + String.length s <= String.length data).
  { pose proof (length_drop i data) as L. rewrite E in L. simpl in L, Hlen. lia. }
  destruct s as [|s0 s'] eqn:Es; [congruence|]. rewrite <- Es in *.
  cbn [scan].
  destruct (Nat.ltb_spec (String.length data) (i + String.length s)); [lia|].
  rewrite (at_drop data i), E.
  replace (at_ s 0) with (Some s0) by (rewrite Es; reflexivity).
  rewrite (matchRest_hasPrefix i Hi) by (rewrite Es; simpl; lia).
  replace (drop 1 s) with s' by (rewrite Es; reflexivity).
  replace (i + 1) with (S i) by lia. rewrite (drop_S _ _ _ _ E).
  cbv zeta. rewrite Es at 3. rewrite hasPrefix_cons.
  rewrite (Ascii.eqb_sym s0 d).
  destruct (Ascii.eqb d s0); simpl; [|reflexivity].
  destruct (hasPrefix s' r); reflexivity.
Qed.

Lemma scan_found (post : string) :
  s <> "" ->
  forall pre fuel i newlines,
    drop i data = pre ++ s ++ post ->
    (forall k, k < String.length pre ->
               hasPrefix s (drop k (pre ++ s ++ post)) = false) ->
    String.length pre < fuel ->
    scan fuel data s i newlines =
      Match (i + String.length pre)
            (newlines + count newline pre
             + (if byteIs s 0 newline then 1 else 0)).
Proof.
  intros Hs. induction pre as [|c pre IH]; intros fuel i newlines E Hfirst Hfuel.
  - destruct fuel as [|fuel]; [simpl in Hfuel; lia|].
    simpl in E. destruct s as [|s0 s'] eqn:Es; [congruence|]. rewrite <- Es in *.
    assert (E' : drop i data = String s0 (s' ++ post)) by (rewrite E, Es; reflexivity).
    rewrite (scan_round fuel i newlines _ _ Hs E').
    2:{ rewrite <- E', E, length_append. lia. }
    cbv zeta. rewrite <- E', E, hasPrefix_append.
    unfold byteIs. rewrite Es. simpl.
    destruct (Ascii.eqb s0 newline); f_equal; lia.
  - destruct fuel as [|fuel]; [simpl in Hfuel; lia|].
    simpl in E.
    rewrite (scan_round fuel i newlines _ _ Hs E).
    2:{ simpl. rewrite !length_append. lia. }
    cbv zeta.
    pose proof (Hfirst 0 ltac:(simpl; lia)) as H0. simpl in H0. rewrite H0.
    rewrite (IH fuel (S i)).
    + simpl. destruct (Ascii.eqb c newline); f_equal; lia.
    + apply (drop_S _ _ _ _ E).
    + intros k Hk. apply (Hfirst (S k)). simpl. lia.
    + simpl in Hfuel. lia.
Qed.

Lemma scan_absent :
  s <> "" ->
  forall fuel i newlines,
    (forall k, hasPrefix s (drop k (drop i data)) = false) ->
    scan fuel data s i newlines = NoMatch.
Proof.
  intros Hs. induction fuel as [|fuel IH]; intros i newlines Habs; [reflexivity|].
  destruct (Nat.ltb_spec (String.length data) (i + String.length s)) as [Hlt|Hge].
  - cbn [scan]. destruct (Nat.ltb_spec (String.length data) (i + String.length s));
      [reflexivity | lia].
  - assert (Hpos : 0 < String.length s) by (destruct s; [congruence | simpl; lia]).
    destruct (drop_cons_lt data i) as [d E]; [lia|].
    rewrite (scan_round fuel i newlines _ _ Hs E).
    2:{ rewrite <- E, length_drop. lia. }
    cbv zeta. rewrite <- E. pose proof (Habs 0) as H0. simpl in H0. rewrite H0.
    apply IH. intros k. specialize (Habs (S k)).
    rewrite drop_drop in *. now replace (S i + k) with (i + S k) by lia.
Qed.

End ScannerFacts.

Section ReadStringFacts.

Variables (t : Template) (s : string).

Lemma nextOccurrence_first (x pre post : string) :
  nextOccurrence s x pre post ->
  forall k, k < String.length pre -> hasPrefix s (drop k x) = false.
Proof.
  intros [E Hmin] k Hk.
  destruct (hasPrefix s (drop k x)) eqn:H; [|reflexivity].
  assert (Hlen : k <= String.length x).
  { rewrite E, length_append. lia. }
  destruct (hasPrefix_occurrence s x k Hlen H) as [post' [E' L]].
  specialize (Hmin _ _ E'). lia.
Qed.

Lemma absent_nowhere (x : string) :
  s <> "" -> absent s x -> forall k, hasPrefix s (drop k x) = false.
Proof.
  intros Hs Habs k.
  destruct (hasPrefix s (drop k x)) eqn:H; [|reflexivity].
  destruct (Nat.le_gt_cases k (String.length x)) as [Hk|Hk].
  - destruct (hasPrefix_occurrence s x k Hk H) as [post [E _]].
    now elim (Habs _ _ E).
  - rewrite drop_all in H by lia.
    destruct s; [congruence | discriminate].
Qed.

Lemma readString_found (pre post : string) :
  s <> "" ->
  nextOccurrence s (drop (p t) (data t)) pre post ->
  readString t s =
    ReadOk (pre ++ s)
           (set_scan t (p t + String.length pre + String.length s)
              (curline t + (count newline pre
                            + (if byteIs s 0 newline then 1 else 0)))).
Proof.
  intros Hs Hocc. pose proof Hocc as [E _].
  unfold readString.
  rewrite (scan_found (data t) s post Hs pre _ (p t) 0 E).
  - unfold slice.
    replace (p t + String.length pre + String.length s - p t)
      with (String.length (pre ++ s)) by (rewrite length_append; lia).
    rewrite E, <- append_assoc, take_length_append.
    reflexivity.
  - rewrite <- E. now apply nextOccurrence_first with (post := post).
  - pose proof (length_drop (p t) (data t)) as L. rewrite E in L.
    rewrite length_append in L. lia.
Qed.

Lemma readString_absent :
  s <> "" ->
  absent s (drop (p t) (data t)) ->
  readString t s = ReadEOF (drop (p t) (data t)).
Proof.
  intros Hs Habs. unfold readString.
  rewrite scan_absent; auto using absent_nowhere.
Qed.

(** Whether [s] occurs in [x] is decidable, and an occurrence has a
    first one. *)
Lemma occurrence_dec (x : string) :
  (exists pre post, nextOccurrence s x pre post) \/ absent s x.
Proof.
  induction x as [|c x IH].
  - destruct s as [|a s'] eqn:Es.
    + left. exists "", "". split; [reflexivity | intros; simpl; lia].
    + right. intros [|b pre] post H; simpl in H; discriminate.
  - destruct (hasPrefix s (String c x)) eqn:H.
    + left. destruct (hasPrefix_true _ _ H) as [post E].
      exists "", post. split; [exact E | intros; simpl; lia].
    + destruct IH as [[pre [post [E Hmin]]] | Habs].
      * left. exists (String c pre), post. split.
        { simpl. now rewrite <- E. }
        intros [|b pre'] post' E'.
        { simpl in E'. rewrite E', hasPrefix_append in H. discriminate. }
        simpl in E'. inversion E' as [[Hc Hx]]. simpl.
        specialize (Hmin _ _ Hx). lia.
      * right. intros [|b pre] post E.
        { simpl in E. rewrite E, hasPrefix_append in H. discriminate. }
        simpl in E. inversion E as [[Hc Hx]]. now elim (Habs _ _ Hx).
Qed.

End ReadStringFacts.


(** ** Fuel *)

Section Fuel.

Variable env : Env.

Lemma parsePartialWith_extends (f g : Template -> result Template) :
  extends f g ->
  extends2 (parsePartialWith env f) (parsePartialWith env g).
Proof.
  intros Hfg t nm r. unfold parsePartialWith, ParseFileWith.
  destruct (String.eqb _ ""); [congruence|].
  destruct (ReadFile env _); [apply Hfg | congruence].
Qed.

Section Rounds.

Variables (ps ps' : Template -> section_t -> result (Template * section_t))
          (pa pa' : Template -> result Template).
Hypothesis Hps : extends2 ps ps'.
Hypothesis Hpa : extends pa pa'.

Ltac split_scan :=
  repeat match goal with
  | |- context [match ?x with _ => _ end] =>
      lazymatch x with
      | context [ps] => fail
      | context [pa] => fail
      | context [ps'] => fail
      | context [pa'] => fail
      | _ => destruct x eqn:?
      end
  end.

Ltac finish :=
  first
    [ congruence
    | apply Hps
    | apply Hpa
    | match goal with
      | |- context [match ps ?a ?b with _ => _ end] =>
          let E := fresh "E" in
          destruct (ps a b) as [[? ?]| | |] eqn:E;
          [ rewrite (Hps _ _ _ E) by discriminate; finish
          | rewrite (Hps _ _ _ E) by discriminate; congruence
          | rewrite (Hps _ _ _ E) by discriminate; congruence
          | congruence ]
      | |- context [match parsePartialWith env pa ?a ?b with _ => _ end] =>
          let E := fresh "E" in
          destruct (parsePartialWith env pa a b) eqn:E;
          [ rewrite (parsePartialWith_extends pa pa' Hpa _ _ _ E) by discriminate;
            finish
          | rewrite (parsePartialWith_extends pa pa' Hpa _ _ _ E) by discriminate;
            congruence
          | rewrite (parsePartialWith_extends pa pa' Hpa _ _ _ E) by discriminate;
            congruence
          | congruence ]
      end ].

Lemma parseSectionRound_extends :
  extends2 (parseSectionRound env ps pa) (parseSectionRound env ps' pa').
Proof.
  intros t sec r. unfold parseSectionRound. cbv zeta.
  split_scan; finish.
Qed.

Lemma parseRound_extends :
  extends (parseRound env ps pa) (parseRound env ps' pa').
Proof.
  intros t r. unfold parseRound. cbv zeta.
  split_scan; finish.
Qed.

End Rounds.

Lemma parse_fuel_S (n : nat) :
  extends2 (parseSection env n) (parseSection env (S n))
  /\ extends (parse env n) (parse env (S n)).
Proof.
  induction n as [|n [IHs IHp]].
  - split; intros ? **; simpl in *; congruence.
  - split.
    + apply (parseSectionRound_extends _ _ _ _ IHs IHp).
    + apply (parseRound_extends _ _ _ _ IHs IHp).
Qed.

Lemma parse_fuel_le (n m : nat) (t : Template) (r : result Template) :
  n <= m -> parse env n t = r -> r <> OutOfFuel -> parse env m t = r.
Proof.
  induction 1 as [|m _ IH]; intros H Hr; [exact H|].
  apply (parse_fuel_S m); auto.
Qed.

Lemma parseSection_fuel_le (n m : nat) (t : Template) (sec : section_t)
    (r : result (Template * section_t)) :
  n <= m -> parseSection env n t sec = r -> r <> OutOfFuel ->
  parseSection env m t sec = r.
Proof.
  induction 1 as [|m _ IH]; intros H Hr; [exact H|].
  apply (parse_fuel_S m); auto.
Qed.

Lemma ParseString_fuel_le (n m : nat) (d : string) (r : result Template) :
  n <= m -> ParseString env n d = r -> r <> OutOfFuel -> ParseString env m d = r.
Proof. apply parse_fuel_le. Qed.

Lemma Render_fuel_le (Sprint : value -> string) (n m : nat) (d : string)
    (ctx : list value) (out : string) :
  n <= m -> Render Sprint env n d ctx = Ok out -> Render Sprint env m d ctx = Ok out.
Proof.
  intros Hnm. unfold Render.
  destruct (ParseString env n d) as [t|e| |] eqn:E; try discriminate;
    rewrite (ParseString_fuel_le n m d _ Hnm E) by discriminate; auto.
Qed.

End Fuel.

(** ** Trimming and splitting *)

Section TrimFacts.

Lemma rev_append (a b : string) : rev (a ++ b) = rev b ++ rev a.
Proof.
  induction a as [|c a IH]; simpl.
  - now rewrite append_nil_r.
  - now rewrite IH, append_assoc.
Qed.

Lemma rev_involutive (s : string) : rev (rev s) = s.
Proof.
  induction s as [|c s IH]; simpl; [reflexivity|].
  now rewrite rev_append, IH.
Qed.

Lemma length_rev (s : string) : String.length (rev s) = String.length s.
Proof.
  induction s as [|c s IH]; simpl; [reflexivity|].
  rewrite length_append, IH. simpl. lia.
Qed.

Variable spaces : list string.
Hypothesis spaces_nonempty : forallb (fun q => negb (String.eqb q "")) spaces = true.

Lemma firstStrip_shorter (s r : string) :
  firstStrip spaces s = Some r ->
  exists pre, s = pre ++ r /\ 0 < String.length pre.
Proof.
  clear - spaces_nonempty. revert spaces_nonempty.
  induction spaces as [|q qs IH]; simpl; intros Hne H; [discriminate|].
  apply andb_prop in Hne as [Hq Hqs].
  destruct (stripPrefix q s) as [r'|] eqn:E.
  - inversion H; subst r'. exists q. split; [now apply stripPrefix_Some|].
    destruct q; [discriminate | simpl; lia].
  - now apply IH.
Qed.

Lemma stripSpace_shorter (s r : string) :
  stripSpace spaces s = Some r ->
  exists pre, s = pre ++ r /\ 0 < String.length pre.
Proof.
  destruct s as [|c s]; simpl; [discriminate|].
  destruct (asciiSpace c).
  - intros H; inversion H; subst. exists (String c ""). split; [reflexivity | simpl; lia].
  - apply firstStrip_shorter.
Qed.

(** What is left after trimming is a suffix of the input that no longer
    starts with white space. *)
Lemma trimFront_done (n : nat) (s : string) :
  String.length s <= n -> stripSpace spaces (trimFront spaces n s) = None.
Proof.
  revert s; induction n as [|n IH]; intros s Hn; simpl.
  - now rewrite (length_zero s) by lia.
  - destruct (stripSpace spaces s) as [r|] eqn:E; [|exact E].
    apply IH. destruct (stripSpace_shorter _ _ E) as [pre [-> Hpre]].
    rewrite length_append in Hn. lia.
Qed.

Lemma trimFront_suffix (n : nat) (s : string) :
  exists pre, s = pre ++ trimFront spaces n s.
Proof.
  revert s; induction n as [|n IH]; intros s; simpl; [now exists ""|].
  destruct (stripSpace spaces s) as [r|] eqn:E; [|now exists ""].
  destruct (stripSpace_shorter _ _ E) as [pre [-> _]].
  destruct (IH r) as [pre' Hr]. exists (pre ++ pre').
  now rewrite append_assoc, <- Hr.
Qed.

Lemma stripSpace_None_head (c : ascii) (r : string) :
  stripSpace spaces (String c r) = None -> asciiSpace c = false.
Proof. simpl. destruct (asciiSpace c); [discriminate | reflexivity]. Qed.

End TrimFacts.

Lemma unicodeSpaces_nonempty :
  forallb (fun q => negb (String.eqb q "")) unicodeSpaces = true.
Proof. reflexivity. Qed.

Lemma unicodeSpaces_rev_nonempty :
  forallb (fun q => negb (String.eqb q "")) (map rev unicodeSpaces) = true.
Proof. reflexivity. Qed.

Lemma TrimLeft_head (s : string) (c : ascii) (r : string) :
  TrimLeft s = String c r -> asciiSpace c = false.
Proof.
  intros E. apply (stripSpace_None_head unicodeSpaces c r).
  rewrite <- E. apply trimFront_done; [apply unicodeSpaces_nonempty | lia].
Qed.

Lemma TrimRight_prefix (s : string) : exists suf, s = TrimRight s ++ suf.
Proof.
  unfold TrimRight.
  destruct (trimFront_suffix (map rev unicodeSpaces) unicodeSpaces_rev_nonempty
              (String.length s) (rev s))
    as [pre E].
  exists (rev pre). rewrite <- rev_append, <- E. symmetry. apply rev_involutive.
Qed.

Lemma TrimRight_last (s r : string) (c : ascii) :
  TrimRight s = r ++ String c "" -> asciiSpace c = false.
Proof.
  unfold TrimRight. intros E.
  apply (f_equal rev) in E. rewrite rev_involutive, rev_append in E. simpl in E.
  apply (stripSpace_None_head (map rev unicodeSpaces) c (rev r)).
  rewrite <- E. apply trimFront_done; [apply unicodeSpaces_rev_nonempty|].
  rewrite length_rev. lia.
Qed.

(** A trimmed string neither starts nor ends with an ASCII white-space
    byte. *)
Lemma TrimSpace_head (s : string) (c : ascii) (r : string) :
  TrimSpace s = String c r -> asciiSpace c = false.
Proof.
  unfold TrimSpace. intros E.
  destruct (TrimRight_prefix (TrimLeft s)) as [suf H]. rewrite E in H.
  simpl in H. now apply TrimLeft_head in H.
Qed.

Lemma TrimSpace_last (s r : string) (c : ascii) :
  TrimSpace s = r ++ String c "" -> asciiSpace c = false.
Proof. apply TrimRight_last. Qed.

Lemma cut_spec (c : ascii) (s a b : string) :
  cut c s = Some (a, b) ->
  s = a ++ String c b /\ containsByte c a = false.
Proof.
  revert a; induction s as [|d s IH]; intros a; simpl; [discriminate|].
  destruct (Ascii.eqb_spec d c) as [->|Hne].
  - intros H; inversion H; subst. now split.
  - destruct (cut c s) as [[a' b']|]; [|discriminate].
    intros H; inversion H; subst. destruct (IH a' eq_refl) as [-> Hno].
    split; [reflexivity|]. simpl. rewrite Hno.
    now destruct (Ascii.eqb_spec d c).
Qed.

Lemma cut_None (c : ascii) (s : string) :
  cut c s = None <-> containsByte c s = false.
Proof.
  induction s as [|d s IH]; simpl; [tauto|].
  destruct (Ascii.eqb d c); simpl; [split; discriminate|].
  destruct (cut c s) as [[a b]|]; [|tauto].
  split; [discriminate|]. intros H. apply IH in H. discriminate.
Qed.

Lemma cut_first (c : ascii) (a b : string) :
  containsByte c a = false -> cut c (a ++ String c b) = Some (a, b).
Proof.
  induction a as [|d a IH]; simpl; intros H.
  - now rewrite Ascii.eqb_refl.
  - apply orb_false_elim in H as [Hd Ha]. rewrite Hd, (IH Ha). reflexivity.
Qed.

(** Both halves of a trimmed string split at its first space are
    non-empty. *)
Lemma cut_TrimSpace_nonempty (s a b : string) :
  cut " " (TrimSpace s) = Some (a, b) -> a <> "" /\ b <> "".
Proof.
  intros H. apply cut_spec in H as [E _]. split; intros ->.
  - simpl in E. apply TrimSpace_head in E. discriminate.
  - apply TrimSpace_last in E. discriminate.
Qed.

(** ** Delimiters *)

Section DelimiterFacts.

Lemma last_append_byte (s : string) (c : ascii) :
  GoString.last (s ++ String c "") = Some c.
Proof.
  unfold GoString.last. rewrite at_drop, length_append. simpl.
  replace (String.length s + 1 - 1) with (String.length s) by lia.
  now rewrite drop_length_append.
Qed.

Lemma sliceChecked_flanked (a b : ascii) (inner : string) :
  sliceChecked (String a (inner ++ String b "")) 1
    (String.length (String a (inner ++ String b "")) - 1) = Some inner.
Proof.
  unfold sliceChecked, slice. simpl String.length.
  rewrite length_append. simpl String.length.
  replace (S (String.length inner + 1) - 1) with (S (String.length inner)) by lia.
  replace (S (String.length inner) - 1) with (String.length inner) by lia.
  simpl drop. rewrite take_length_append.
  destruct (Nat.leb_spec (S (String.length inner)) (S (String.length inner + 1)));
    [reflexivity | lia].
Qed.

Lemma metaTag_unflanked (t : Template) (body : string) (c : ascii) :
  c <> "="%char ->
  metaTag t (body ++ String c "") = Err (parseError (curline t) "Invalid meta tag").
Proof.
  intros Hc. unfold metaTag. rewrite last_append_byte.
  now destruct (Ascii.eqb_spec c "=").
Qed.

Lemma metaTag_flanked (t : Template) (inner : string) :
  metaTag t ("=" ++ inner ++ "=") =
    match cut " " (TrimSpace inner) with
    | Some (o, c) => Ok (set_tags t o c)
    | None => Ok t
    end.
Proof.
  unfold metaTag.
  change ("=" ++ inner ++ "=") with (String "="%char (inner ++ String "="%char "")).
  rewrite sliceChecked_flanked.
  change (String "=" (inner ++ String "=" "")) with (String "="%char inner ++ String "="%char "").
  rewrite last_append_byte. simpl. unfold SplitN2.
  now destruct (cut " " (TrimSpace inner)) as [[o c]|].
Qed.

Lemma metaTag_Ok (t : Template) (tag : string) (t' : Template) :
  metaTag t tag = Ok t' ->
  t' = t \/ exists o c, t' = set_tags t o c /\ o <> "" /\ c <> "".
Proof.
  unfold metaTag.
  destruct (negb _); [discriminate|].
  destruct (sliceChecked tag 1 _) as [inner|]; [|discriminate].
  unfold SplitN2. destruct (cut " " (TrimSpace inner)) as [[o c]|] eqn:E.
  - intros H; inversion H; subst. right. exists o, c.
    split; [reflexivity | now apply cut_TrimSpace_nonempty with (s := inner)].
  - intros H; inversion H; subst. now left.
Qed.

Lemma delimsOk_metaTag (t : Template) (tag : string) (t' : Template) :
  metaTag t tag = Ok t' -> delimsOk t -> delimsOk t'.
Proof.
  intros H Ht. destruct (metaTag_Ok _ _ _ H) as [->|[o [c [-> [Ho Hc]]]]];
    [exact Ht | now split].
Qed.

Lemma delimsOk_readString (t : Template) (s text : string) (t' : Template) :
  readString t s = ReadOk text t' -> delimsOk t -> delimsOk t'.
Proof.
  unfold readString. destruct (scan _ _ _ _ _); try discriminate.
  intros H Ht; inversion H; subst. exact Ht.
Qed.

Lemma delimsOk_readIf (b : bool) (t : Template) (s1 s2 text : string)
    (t' : Template) :
  (if b then readString t s1 else readString t s2) = ReadOk text t' ->
  delimsOk t -> delimsOk t'.
Proof. destruct b; apply delimsOk_readString. Qed.

Lemma delimsOk_add_elem (t : Template) (e : element) :
  delimsOk t -> delimsOk (add_elem t e).
Proof. exact (fun H => H). Qed.

Lemma delimsOk_skipNewline (t : Template) :
  delimsOk t -> delimsOk (skipNewline t).
Proof.
  unfold skipNewline. destruct (byteIs _ _ newline); [exact (fun H => H)|].
  destruct (_ && _); exact (fun H => H).
Qed.

Lemma delimsOk_newTemplate (d dir : string) : delimsOk (newTemplate d dir).
Proof. split; discriminate. Qed.

Variable env : Env.

Definition keepsDelims (pa : Template -> result Template) : Prop :=
  forall t t', pa t = Ok t' -> delimsOk t -> delimsOk t'.

Definition keepsDelimsS
    (ps : Template -> section_t -> result (Template * section_t)) : Prop :=
  forall t sec t' sec', ps t sec = Ok (t', sec') -> delimsOk t -> delimsOk t'.

Section Rounds.

Variables (ps : Template -> section_t -> result (Template * section_t))
          (pa : Template -> result Template).
Hypothesis Hps : keepsDelimsS ps.
Hypothesis Hpa : keepsDelims pa.

Ltac split_all :=
  repeat match goal with
  | |- context [match ?x with _ => _ end] => destruct x eqn:?
  end.

Ltac ok :=
  eauto 10 using delimsOk_metaTag, delimsOk_readString, delimsOk_readIf,
    delimsOk_add_elem, delimsOk_skipNewline.

Lemma parseSectionRound_delims : keepsDelimsS (parseSectionRound env ps pa).
Proof.
  intros t sec t' sec'. unfold parseSectionRound. cbv zeta.
  split_all; intros H Ht; try discriminate;
    try (inversion H; subst); ok.
Qed.

Lemma parseRound_delims : keepsDelims (parseRound env ps pa).
Proof.
  intros t t'. unfold parseRound. cbv zeta.
  split_all; intros H Ht; try discriminate;
    try (inversion H; subst); ok.
Qed.

End Rounds.

Lemma parse_delims (fuel : nat) :
  keepsDelimsS (parseSection env fuel) /\ keepsDelims (parse env fuel).
Proof.
  induction fuel as [|fuel [IHs IHp]].
  - split; intros ? **; simpl in *; discriminate.
  - split.
    + apply parseSectionRound_delims; assumption.
    + apply parseRound_delims; assumption.
Qed.

Lemma ParseFile_delims (fuel : nat) (f : string) (t : Template) :
  ParseFile env fuel f = Ok t -> delimsOk t.
Proof.
  unfold ParseFile, ParseFileWith. destruct (ReadFile env f); [|discriminate].
  intros H. apply (proj2 (parse_delims fuel) _ _ H), delimsOk_newTemplate.
Qed.

End DelimiterFacts.

(** ** Plain names *)

Section PlainFacts.

Lemma plainByte_stripSpace (c : ascii) (r : string) :
  plainByte c = true ->
  stripSpace unicodeSpaces (String c r) = None
  /\ stripSpace (map rev unicodeSpaces) (String c r) = None.
Proof.
  destruct c as [[] [] [] [] [] [] [] []]; intros H;
    first [discriminate H | split; reflexivity].
Qed.

Lemma plainByte_not (c : ascii) :
  plainByte c = true ->
  Ascii.eqb c newline = false /\ Ascii.eqb c "}" = false.
Proof.
  destruct c as [[] [] [] [] [] [] [] []]; intros H;
    first [discriminate H | split; reflexivity].
Qed.

Lemma trimFront_fixed (spaces : list string) (n : nat) (s : string) :
  stripSpace spaces s = None -> trimFront spaces n s = s.
Proof. intros H. destruct n; simpl; [reflexivity | now rewrite H]. Qed.

Lemma plain_append (a b : string) : plain (a ++ b) = plain a && plain b.
Proof.
  induction a as [|c a IH]; simpl; [reflexivity|].
  now rewrite IH, andb_assoc.
Qed.

Lemma plain_rev (s : string) : plain (rev s) = plain s.
Proof.
  induction s as [|c s IH]; simpl; [reflexivity|].
  rewrite plain_append, IH. simpl. rewrite andb_true_r. apply andb_comm.
Qed.

Lemma TrimSpace_plain (s : string) : plain s = true -> TrimSpace s = s.
Proof.
  intros H. unfold TrimSpace.
  assert (HL : TrimLeft s = s).
  { unfold TrimLeft. apply trimFront_fixed.
    destruct s as [|c r]; [reflexivity|]. simpl in H.
    apply andb_prop in H as [Hc _]. exact (proj1 (plainByte_stripSpace c r Hc)). }
  rewrite HL. unfold TrimRight.
  rewrite trimFront_fixed; [apply rev_involutive|].
  rewrite <- plain_rev in H. destruct (rev s) as [|c r]; [reflexivity|].
  simpl in H. apply andb_prop in H as [Hc _].
  exact (proj2 (plainByte_stripSpace c r Hc)).
Qed.

Lemma plain_count_newline (s : string) : plain s = true -> count newline s = 0.
Proof.
  induction s as [|c s IH]; simpl; [reflexivity|]. intros H.
  apply andb_prop in H as [Hc Hs].
  destruct (plainByte_not c Hc) as [-> _]. now rewrite IH.
Qed.

(** A closing brace cannot sit inside a plain prefix. *)
Lemma plain_before_brace (a y pre z : string) :
  plain a = true -> a ++ y = pre ++ String "}" z ->
  String.length a <= String.length pre.
Proof.
  revert pre; induction a as [|c a IH]; intros pre H E; simpl; [lia|].
  simpl in H. apply andb_prop in H as [Hc Ha].
  destruct pre as [|d pre]; simpl in E.
  - inversion E; subst. apply plainByte_not in Hc as [_ Hc]. discriminate.
  - inversion E; subst. specialize (IH _ Ha H1). simpl. lia.
Qed.

Lemma absent_drop (s x : string) (k : nat) : absent s x -> absent s (drop k x).
Proof.
  intros H pre post E. apply (H (take k x ++ pre) post).
  rewrite append_assoc, <- E. symmetry. apply take_drop.
Qed.

End PlainFacts.

(** ** Unclosed sections *)

Section UnclosedFacts.

Variable env : Env.

Lemma parseSection_eof (fuel : nat) (t : Template) (sec : section_t) (text : string) :
  readString t (otag t) = ReadEOF text ->
  parseSection env (S fuel) t sec =
    Err (parseError (startline sec)
           ("Section " ++ name sec ++ " has no closing tag")).
Proof. intros H. simpl. unfold parseSectionRound. now rewrite H. Qed.

Lemma skipNewline_spec (t : Template) :
  exists k, skipNewline t = set_p t (p t + k).
Proof.
  unfold skipNewline. destruct (byteIs _ _ newline); [now exists 1|].
  destruct (_ && _); [now exists 2|].
  exists 0. destruct t; unfold set_p, set_scan; simpl. now rewrite Nat.add_0_r.
Qed.

(** Scanning the first tag of [{{] [c] [nm] [}}] [body], for a plain tag
    body: both reads succeed and the trimmed tag is [c] followed by [nm]. *)
Lemma plain_tag_scan (c : ascii) (nm body dir : string) :
  plain (String c nm) = true ->
  let d := "{{" ++ String c nm ++ "}}" ++ body in
  let t0 := newTemplate d dir in
  let t1 := add_elem (set_scan t0 2 1) (textElement "") in
  let t2 := set_scan t1 (String.length nm + 5) 1 in
  readString t0 "{{" = ReadOk "{{" (set_scan t0 2 1)
  /\ readString t1 "}}" = ReadOk (String c nm ++ "}}") t2
  /\ drop (p t2) d = body
  /\ TrimSpace (take (String.length (String c nm ++ "}}") - 2)
                  (String c nm ++ "}}")) = String c nm.
Proof.
  intros Htag d t0 t1 t2. split; [|split; [|split]].
  - apply (readString_found t0 "{{" "" (String c nm ++ "}}" ++ body));
      [discriminate|].
    split; [reflexivity | intros; simpl; lia].
  - rewrite (readString_found t1 "}}" (String c nm) body); [|discriminate|].
    + rewrite (plain_count_newline _ Htag). unfold t2. do 2 f_equal.
      cbn [p t1 t0 add_elem set_scan newTemplate]. simpl. lia.
    + split; [reflexivity|].
      intros pre' post' E. apply (plain_before_brace _ _ _ _ Htag E).
  - cbn [p t2 set_scan]. unfold d.
    replace (String.length nm + 5) with (2 + (String.length (String c nm) + 2))
      by (simpl; lia).
    rewrite <- drop_drop, <- drop_drop. simpl drop at 3.
    change (String c (nm ++ String "}" (String "}" body)))
      with (String c nm ++ "}}" ++ body).
    now rewrite drop_length_append.
  - replace (String.length (String c nm ++ "}}") - 2)
      with (String.length (String c nm)) by (rewrite length_append; simpl; lia).
    rewrite take_length_append. now apply TrimSpace_plain.
Qed.

Lemma plain_cons (c : ascii) (nm : string) :
  plainByte c = true -> plain nm = true -> plain (String c nm) = true.
Proof. intros Hc Hnm. simpl. now rewrite Hc. Qed.

Lemma ParseString_unclosed (c : ascii) (nm body : string) (fuel : nat) :
  c = "#"%char \/ c = "^"%char ->
  plain nm = true ->
  absent "{{" body ->
  ParseString env (S (S fuel)) ("{{" ++ String c nm ++ "}}" ++ body) =
    Err (parseError 1 ("Section " ++ nm ++ " has no closing tag")).
Proof.
  intros Hc Hnm Hbody.
  assert (Htag : plain (String c nm) = true)
    by (apply plain_cons; [destruct Hc; subst; reflexivity | exact Hnm]).
  destruct (plain_tag_scan c nm body (Getenv_CWD env) Htag) as [R1 [R2 [D2 T]]].
  unfold ParseString.
  change (parse env (S (S fuel)) ?t)
    with (parseRound env (parseSection env (S fuel)) (parse env (S fuel)) t).
  unfold parseRound. cbn [otag newTemplate]. rewrite R1. cbv zeta.
  replace (byteIs _ _ "{") with false
    by (unfold byteIs; simpl; destruct Hc; subst; reflexivity).
  cbn [ctag otag add_elem set_scan newTemplate]. simpl take at 1.
  rewrite R2. cbn [ctag curline add_elem set_scan newTemplate].
  simpl (String.length "}}"). rewrite T, (TrimSpace_plain _ Hnm).
  replace (Ascii.eqb c "!") with false by (destruct Hc; subst; reflexivity).
  replace (Ascii.eqb c "#" || Ascii.eqb c "^") with true
    by (destruct Hc; subst; reflexivity).
  match goal with |- context [skipNewline ?t] => set (t2 := t) in * end.
  destruct (skipNewline_spec t2) as [k ->].
  rewrite (parseSection_eof fuel _ _ (drop (p t2 + k) (data t2))); [reflexivity|].
  apply (readString_absent (set_p t2 (p t2 + k)) "{{"); [discriminate|].
  cbn [data p set_p set_scan]. rewrite <- drop_drop.
  change (data t2) with ("{{" ++ String c nm ++ "}}" ++ body).
  rewrite D2. now apply absent_drop.
Qed.


End UnclosedFacts.

(** ** Partials *)

Section PartialFacts.

Variable env : Env.






End PartialFacts.





(** ** Context resolver *)

Section LookupFacts.

Lemma lookupFuel_eq (fuel : nat) (chain : list value) (name : string) :
  lookupFuel fuel chain name =
    if dotted name then
      match fuel, SplitN2 name "." with
      | S fuel', [head; rest] =>
          lookupFuel fuel' [lookupFuel fuel' chain head] rest
      | _, _ => Invalid
      end
    else lookupChain name chain.
Proof. destruct fuel; reflexivity. Qed.

Lemma containsByte_append (c : ascii) (a b : string) :
  containsByte c (a ++ b) = containsByte c a || containsByte c b.
Proof.
  induction a as [|d a IH]; simpl; [reflexivity|].
  now rewrite IH, orb_assoc.
Qed.

Lemma dotted_cut (name : string) :
  dotted name = true ->
  exists head rest, cut "." name = Some (head, rest)
                    /\ String.length head < String.length name
                    /\ String.length rest < String.length name.
Proof.
  unfold dotted. intros H. apply andb_prop in H as [_ H].
  destruct (cut "." name) as [[head rest]|] eqn:E.
  - exists head, rest. split; [reflexivity|].
    apply cut_spec in E as [-> _]. rewrite length_append. simpl. lia.
  - apply cut_None in E. congruence.
Qed.

(** Fuel beyond the length of the name changes nothing. *)
Lemma lookupFuel_enough (n m : nat) :
  forall chain name,
    String.length name <= n -> String.length name <= m ->
    lookupFuel n chain name = lookupFuel m chain name.
Proof.
  revert m. induction n as [|n IH]; intros m chain name Hn Hm.
  - rewrite (length_zero name) by lia. now destruct m.
  - rewrite (lookupFuel_eq (S n)), (lookupFuel_eq m).
    destruct (dotted name) eqn:D; [|reflexivity].
    destruct (dotted_cut name D) as [head [rest [E [Hh Hr]]]].
    destruct m as [|m]; [lia|].
    unfold SplitN2. rewrite E.
    rewrite (IH m chain head) by lia.
    apply IH; lia.
Qed.

Lemma lookup_plain (chain : list value) (name : string) :
  dotted name = false -> lookup chain name = lookupChain name chain.
Proof. intros D. unfold lookup. now rewrite lookupFuel_eq, D. Qed.

Lemma lookup_dotted (chain : list value) (head rest : string) :
  containsByte "." head = false ->
  head ++ "." ++ rest <> "." ->
  lookup chain (head ++ "." ++ rest) = lookup [lookup chain head] rest.
Proof.
  intros Hh Hne. unfold lookup.
  rewrite length_append. simpl String.length.
  replace (String.length head + S (String.length rest))
    with (S (String.length head + String.length rest)) by lia.
  rewrite lookupFuel_eq.
  assert (D : dotted (head ++ "." ++ rest) = true).
  { unfold dotted. rewrite containsByte_append. simpl.
    rewrite orb_true_r, andb_true_r.
    destruct (String.eqb_spec (head ++ String "."%char rest) ".") as [E|E];
      [now elim Hne | reflexivity]. }
  rewrite D. unfold SplitN2. simpl append at 2. rewrite (cut_first "." head rest Hh).
  rewrite (lookupFuel_enough _ (String.length head) chain head) by lia.
  apply lookupFuel_enough; lia.
Qed.

Lemma lookupChain_invalid (name : string) (chain : list value) :
  Forall (fun v => v = Invalid) chain -> lookupChain name chain = Invalid.
Proof. induction 1 as [|v chain -> _ IH]; simpl; [reflexivity | exact IH]. Qed.

Lemma lookupChain_skip (name : string) (pre chain : list value) :
  Forall (fun v => v = Invalid) pre ->
  lookupChain name (pre ++ chain)%list = lookupChain name chain.
Proof. induction 1 as [|v pre -> _ IH]; simpl; [reflexivity | exact IH]. Qed.

Lemma lookupFuel_invalid (n : nat) :
  forall chain name,
    Forall (fun v => v = Invalid) chain -> lookupFuel n chain name = Invalid.
Proof.
  induction n as [|n IH]; intros chain name H; rewrite lookupFuel_eq.
  - destruct (dotted name); [reflexivity | now apply lookupChain_invalid].
  - destruct (dotted name); [|now apply lookupChain_invalid].
    destruct (SplitN2 name ".") as [|h [|r [|? ?]]]; try reflexivity.
    rewrite (IH chain h H). apply IH. now constructor.
Qed.

Lemma lookup_nil (name : string) : lookup [] name = Invalid.
Proof. apply lookupFuel_invalid. constructor. Qed.

Lemma walkFrame_dot (self v : value) :
  forall ro,
    IsValid v = true -> findMethod "." (methodsOf v) = None ->
    walkFrame "." ro self v = Return self.
Proof.
  induction v; intros ro Hv Hm; try discriminate; simpl in *;
    rewrite ?Hm; try reflexivity.
  now apply IHv.
Qed.

Lemma lookupFrame_dot (c : value) :
  IsValid c = true -> findMethod "." (methodsOf c) = None ->
  lookupFrame "." c = Return c.
Proof. apply walkFrame_dot. Qed.

Lemma lookup_dot (pre : list value) (c : value) (rest : list value) :
  Forall (fun v => v = Invalid) pre ->
  IsValid c = true -> findMethod "." (methodsOf c) = None ->
  lookup (pre ++ c :: rest)%list "." = c.
Proof.
  intros Hpre Hv Hm. rewrite lookup_plain by reflexivity.
  rewrite lookupChain_skip by assumption. simpl.
  now rewrite (lookupFrame_dot c Hv Hm).
Qed.

End LookupFacts.

(** ** Renderer *)

Lemma element_nested_ind (P : element -> Prop) :
  (forall s, P (textElement s)) ->
  (forall n r, P (varElement n r)) ->
  (forall s, Forall P (sec_elems s) -> P (sectionElement s)) ->
  (forall t, Forall P (elems t) -> P (partialElement t)) ->
  forall e, P e.
Proof.
  intros Ht Hv Hs Hp. fix IH 1. intros [s|n r|s|t].
  - apply Ht.
  - apply Hv.
  - apply Hs. destruct s as [nm inv line es]. simpl.
    induction es as [|e es IHes]; constructor; [apply IH | exact IHes].
  - apply Hp. destruct t as [d o c q l dr es]. simpl.
    induction es as [|e es IHes]; constructor; [apply IH | exact IHes].
Qed.

Lemma replaceByte_append (c : ascii) (by_ a b : string) :
  replaceByte c by_ (a ++ b) = replaceByte c by_ a ++ replaceByte c by_ b.
Proof.
  induction a as [|d a IH]; simpl; [reflexivity|].
  now rewrite IH, append_assoc.
Qed.

Lemma htmlEscape_append (a b : string) :
  htmlEscape (a ++ b) = htmlEscape a ++ htmlEscape b.
Proof. unfold htmlEscape. now rewrite !replaceByte_append. Qed.

Lemma htmlEscape_byte (c : ascii) : htmlEscape (String c "") = escapeByte c.
Proof. destruct c as [[] [] [] [] [] [] [] []]; reflexivity. Qed.

(** The five substitutions one after the other, the ampersand first, come
    to escaping every byte on its own. *)
Lemma htmlEscape_escapeEach (s : string) : htmlEscape s = escapeEach s.
Proof.
  induction s as [|c s IH]; [reflexivity|].
  change (String c s) with (String c "" ++ s).
  rewrite htmlEscape_append, htmlEscape_byte, IH. reflexivity.
Qed.

Section RenderFacts.

Variable Sprint : value -> string.

Lemma renderElems_nil_chain (es : list element) :
  Forall (fun e => forall buf,
            renderElement Sprint e [] buf =
              if hasSection e then Panics else Ok (buf ++ textOf e)) es ->
  forall buf,
    renderElems (renderElement Sprint) es [] buf =
      if existsb hasSection es then Panics
      else Ok (buf ++ joinText (map textOf es)).
Proof.
  induction 1 as [|e es He _ IH]; intros buf; simpl.
  - now rewrite append_nil_r.
  - rewrite He. destruct (hasSection e); simpl; [reflexivity|].
    rewrite IH. destruct (existsb hasSection es); [reflexivity|].
    now rewrite append_assoc.
Qed.

Lemma renderElement_nil_chain (e : element) (buf : string) :
  renderElement Sprint e [] buf =
    if hasSection e then Panics else Ok (buf ++ textOf e).
Proof.
  revert buf. induction e as [s|n r|s _|t IH] using element_nested_ind;
    intros buf.
  - reflexivity.
  - simpl. rewrite lookup_nil. simpl. now rewrite append_nil_r.
  - reflexivity.
  - simpl. now apply renderElems_nil_chain.
Qed.

Lemma Render_nil_chain (t : Template) :
  Template_Render Sprint t [] =
    if existsb hasSection (elems t) then Panics
    else Ok (joinText (map textOf (elems t))).
Proof.
  unfold Template_Render, renderTemplate.
  rewrite renderElems_nil_chain; [reflexivity|].
  apply Forall_forall. intros e _ buf. apply renderElement_nil_chain.
Qed.

Lemma renderElement_var (vname : string) (raw : bool) (chain : list value)
    (buf : string) :
  renderElement Sprint (varElement vname raw) chain buf =
    Ok (buf ++ (if IsValid (lookup chain vname)
                   && CanInterface (lookup chain vname)
                then if raw then Sprint (lookup chain vname)
                     else htmlEscape (Sprint (lookup chain vname))
                else "")).
Proof.
  simpl. destruct (IsValid (lookup chain vname)); [|now rewrite append_nil_r].
  destruct (CanInterface (lookup chain vname)); simpl;
    [now destruct raw | now rewrite append_nil_r].
Qed.

(** What [renderSection] does with a truthy scalar, and with an inverted
    section over an empty value: the children are rendered once, under the
    chain extended by its own last frame. *)
Lemma renderSection_scalar (sec : section_t) (chain : list value)
    (ctx : value) (buf : string) :
  nth_error chain (List.length chain - 1) = Some ctx ->
  inverted sec = false ->
  isEmpty (lookup chain (name sec)) = Some false ->
  isScalar (indirect (lookup chain (name sec))) = true ->
  renderSection Sprint sec chain buf =
    renderElems (renderElement Sprint) (sec_elems sec) (ctx :: chain) buf.
Proof.
  intros Hctx Hinv Hne Hsc. unfold renderSection, renderSectionWith.
  rewrite Hctx, Hinv, Hne. simpl.
  unfold isScalar in Hsc.
  destruct (underlying (indirect (lookup chain (name sec)))); try discriminate;
    simpl; now destruct (renderElems _ _ _ _).
Qed.

Lemma renderSection_inverted (sec : section_t) (chain : list value)
    (ctx : value) (buf : string) :
  nth_error chain (List.length chain - 1) = Some ctx ->
  inverted sec = true ->
  isEmpty (lookup chain (name sec)) = Some true ->
  renderSection Sprint sec chain buf =
    renderElems (renderElement Sprint) (sec_elems sec) (ctx :: chain) buf.
Proof.
  intros Hctx Hinv He. unfold renderSection, renderSectionWith.
  rewrite Hctx, Hinv, He. simpl. now destruct (renderElems _ _ _ _).
Qed.

Lemma renderSection_skipped (sec : section_t) (chain : list value)
    (ctx : value) (buf : string) :
  forall empty,
    nth_error chain (List.length chain - 1) = Some ctx ->
    isEmpty (lookup chain (name sec)) = Some empty ->
    inverted sec = negb empty ->
    renderSection Sprint sec chain buf = Ok buf.
Proof.
  intros empty Hctx He Hinv. unfold renderSection, renderSectionWith.
  rewrite Hctx, He, Hinv. now destruct empty.
Qed.

End RenderFacts.





Lemma isEmpty_unexported (v : value) :
  IsValid v = true -> CanInterface v = false -> isEmpty v = None.
Proof. intros Hv Hc. unfold isEmpty. now rewrite Hv, Hc. Qed.


(* ================================================================= *)
(** ** The tag ahead *)

Section TagFacts.

Variable env : Env.

Lemma drop_past (d : string) (q : nat) (a b : string) :
  drop q d = a ++ b -> drop (q + String.length a) d = b.
Proof. intros E. now rewrite <- drop_drop, E, drop_length_append. Qed.

Lemma byteIs_drop (d : string) (i : nat) (c : ascii) :
  byteIs d i c = match drop i d with
                 | String x _ => Ascii.eqb x c
                 | EmptyString => false
                 end.
Proof. unfold byteIs. rewrite at_drop. now destruct (drop i d). Qed.

Lemma take_cut (a b : string) :
  take (String.length (a ++ b) - String.length b) (a ++ b) = a.
Proof.
  replace (String.length (a ++ b) - String.length b) with (String.length a)
    by (rewrite length_append; lia).
  apply take_length_append.
Qed.

(** The two reads that every round of [parse] and [parseSection] starts
    with, at a tag ahead. *)
Lemma tag_reads (t : Template) (pre body rest : string) :
  tagAhead t pre body rest ->
  let t1 := afterText t pre (otag t) in
  readString t (otag t) = ReadOk (pre ++ otag t) t1
  /\ byteIs (data t) (p t1) "{" = false
  /\ (forall u,
         data u = data t -> p u = p t1 ->
         readString u (ctag t) = ReadOk (body ++ ctag t) (afterText u body (ctag t)))
  /\ drop (p (afterTag t pre body)) (data t) = rest.
Proof.
  intros [Ho [Hc [post [N1 [Hb N2]]]]] t1.
  pose proof N1 as [E1 _]. pose proof N2 as [E2 _].
  assert (D1 : drop (p t1) (data t) = post).
  { unfold t1, afterText. cbn [p set_scan]. rewrite <- Nat.add_assoc.
    rewrite <- length_append. apply drop_past. now rewrite append_assoc. }
  split; [|split; [|split]].
  - unfold t1, afterText. exact (readString_found t (otag t) pre post Ho N1).
  - rewrite byteIs_drop, D1. unfold byteIs in Hb. simpl in Hb.
    now destruct post.
  - intros u Hd Hp. unfold afterText.
    apply (readString_found u (ctag t) body rest Hc).
    now rewrite Hd, Hp, D1.
  - unfold afterTag, afterText. cbn [p set_scan add_elem].
    fold t1. change (p t + String.length pre + String.length (otag t))
      with (p t1).
    rewrite <- Nat.add_assoc, <- length_append. apply drop_past.
    now rewrite D1, append_assoc.
Qed.

Ltac eval_eqb :=
  repeat match goal with
         | |- context [Ascii.eqb ?a ?b] =>
             let r := eval vm_compute in (Ascii.eqb a b) in
             match r with
             | true => change (Ascii.eqb a b) with true
             | false => change (Ascii.eqb a b) with false
             end
         end.

(** Runs a round of [parse] or [parseSection] up to the switch on the
    first byte of the tag. *)
Ltac tag_round H HT :=
  let R1 := fresh "R1" in
  let Hb := fresh "Hb" in
  let R2 := fresh "R2" in
  let D := fresh "D" in
  match type of H with
  | tagAhead ?t ?pre ?body ?rest =>
      destruct (tag_reads t pre body rest H) as [R1 [Hb [R2 D]]];
      cbv zeta in R1, Hb, R2;
      rewrite R1; cbv zeta;
      change (otag (afterText t pre (otag t))) with (otag t);
      rewrite take_cut;
      replace (byteIs _ _ "{") with false by exact (eq_sym Hb);
      cbv iota;
      match goal with
      | |- context [readString ?u (ctag ?u)] =>
          change (readString u (ctag u)) with (readString u (ctag t));
          rewrite (R2 u eq_refl eq_refl);
          change (ctag (afterText u body (ctag t))) with (ctag t)
      end;
      cbv iota; rewrite take_cut, HT; cbv iota; eval_eqb;
      cbn [orb]; cbv iota
  end.



(** A delimiter-change tag, wherever it stands. *)
Lemma parse_meta_tag (fuel : nat) (t : Template) (pre body rest r : string) :
  tagAhead t pre body rest ->
  TrimSpace body = String "=" r ->
  parse env (S fuel) t =
    match metaTag (afterTag t pre body) (TrimSpace body) with
    | Ok t' => parse env fuel t'
    | Err e => Err e
    | Panics => Panics
    | OutOfFuel => OutOfFuel
    end.
Proof.
  intros H HT.
  change (parse env (S fuel) t)
    with (parseRound env (parseSection env fuel) (parse env fuel) t).
  unfold parseRound. tag_round H HT. reflexivity.
Qed.

Lemma parseSection_meta_tag (fuel : nat) (t : Template) (sec : section_t)
    (pre body rest r : string) :
  tagAhead t pre body rest ->
  TrimSpace body = String "=" r ->
  parseSection env (S fuel) t sec =
    match metaTag (afterTagS t pre body) (TrimSpace body) with
    | Ok t' => parseSection env fuel t' (sec_add_elem sec (textElement pre))
    | Err e => Err e
    | Panics => Panics
    | OutOfFuel => OutOfFuel
    end.
Proof.
  intros H HT.
  change (parseSection env (S fuel) t sec)
    with (parseSectionRound env (parseSection env fuel) (parse env fuel) t sec).
  unfold parseSectionRound. tag_round H HT. reflexivity.
Qed.




Lemma noByte_before (c : ascii) (a y pre z : string) :
  containsByte c a = false -> a ++ y = pre ++ String c z ->
  String.length a <= String.length pre.
Proof.
  revert pre; induction a as [|d a IH]; intros pre H E; simpl; [lia|].
  simpl in H. apply orb_false_elim in H as [Hd Ha].
  destruct pre as [|e pre]; simpl in E.
  - inversion E; subst. now rewrite Ascii.eqb_refl in Hd.
  - inversion E; subst. specialize (IH _ Ha H1). simpl. lia.
Qed.

Lemma absent_cons (c : ascii) (s x : string) :
  absent s x -> absent (String c s) x.
Proof.
  intros H pre post E. apply (H (pre ++ String c "") post).
  now rewrite E, !append_assoc.
Qed.

(** What [skipNewline] leaves to be read. *)
Lemma skipNewline_after (t : Template) :
  exists k,
    skipNewline t = set_p t (p t + k)
    /\ drop (p t + k) (data t) = afterNewline (drop (p t) (data t)).
Proof.
  unfold skipNewline. rewrite !byteIs_drop.
  destruct (drop (p t) (data t)) as [|c r] eqn:E.
  - exists 0. cbn [andb afterNewline]. rewrite Nat.add_0_r, E.
    split; [|reflexivity]. now destruct t.
  - assert (E1 : drop (p t + 1) (data t) = r)
      by (replace (p t + 1) with (S (p t)) by lia; apply (drop_S _ _ _ _ E)).
    rewrite E1. cbn [afterNewline]. destruct (Ascii.eqb c newline).
    + exists 1. now split.
    + destruct r as [|c' r'].
      * exists 0. rewrite andb_false_r, Nat.add_0_r, E.
        split; [|reflexivity]. now destruct t.
      * destruct (Ascii.eqb c cr && Ascii.eqb c' newline).
        -- exists 2. split; [reflexivity|].
           replace (p t + 2) with (S (p t + 1)) by lia.
           apply (drop_S _ _ _ _ E1).
        -- exists 0. rewrite Nat.add_0_r, E. split; [|reflexivity].
           now destruct t.
Qed.

Lemma afterNewline_before_brace (text z : string) :
  afterNewline (text ++ String "{" z) = afterNewline text ++ String "{" z.
Proof.
  destruct text as [|c r]; [destruct z; reflexivity|].
  cbn [append afterNewline].
  destruct (Ascii.eqb c newline); [reflexivity|].
  destruct r as [|c' r']; cbn [append].
  - change (Ascii.eqb "{" newline) with false. now rewrite andb_false_r.
  - now destruct (Ascii.eqb c cr && Ascii.eqb c' newline).
Qed.

Lemma noBrace_afterNewline (text : string) :
  noBrace text = true -> noBrace (afterNewline text) = true.
Proof.
  unfold noBrace. intros H. apply negb_true_iff in H. apply negb_true_iff.
  destruct text as [|c r]; [reflexivity|]. simpl in H.
  apply orb_false_elim in H as [Hc Hr]. cbn [afterNewline].
  destruct (Ascii.eqb c newline); [exact Hr|].
  destruct r as [|c' r']; [simpl; now rewrite Hc|].
  simpl in Hr. apply orb_false_elim in Hr as [Hc' Hr'].
  destruct (Ascii.eqb c cr && Ascii.eqb c' newline); [exact Hr'|].
  simpl. now rewrite Hc, Hc'.
Qed.

(** A tag written with the delimiters [{{] and [}}], after text without
    an opening brace: a body without a closing brace that does not start
    with an opening one. *)
Lemma tagAhead_default (t : Template) (pre body rest : string) :
  otag t = "{{" -> ctag t = "}}" ->
  noBrace pre = true ->
  containsByte "}" body = false ->
  byteIs body 0 "{" = false ->
  drop (p t) (data t) = pre ++ "{{" ++ body ++ "}}" ++ rest ->
  tagAhead t pre body rest.
Proof.
  intros Ho Hc Hpre Hbody Hb E. unfold tagAhead. rewrite Ho, Hc.
  split; [discriminate|]. split; [discriminate|].
  exists (body ++ "}}" ++ rest). split; [|split].
  - split; [exact E|]. intros pre' post' E'. rewrite E in E'.
    eapply (noByte_before "{" pre); [|exact E'].
    unfold noBrace in Hpre. now destruct (containsByte "{" pre).
  - unfold byteIs in *. destruct body; [reflexivity | exact Hb].
  - split; [reflexivity|]. intros pre' post' E'.
    eapply (noByte_before "}" body); [exact Hbody | exact E'].
Qed.

Lemma afterTag_curline (t : Template) (pre body : string) :
  otag t = "{{" -> ctag t = "}}" ->
  curline (afterTag t pre body)
  = curline t + count newline pre + count newline body
  /\ curline (afterTagS t pre body)
     = curline t + count newline pre + count newline body.
Proof.
  intros Ho Hc. unfold afterTag, afterTagS, afterText.
  cbn [curline set_scan add_elem]. rewrite Ho, Hc.
  change (byteIs "{{" 0 newline) with false.
  change (byteIs "}}" 0 newline) with false. cbv iota. lia.
Qed.




(** The tag errors of [parse]. *)
Lemma parse_close_tag (fuel : nat) (t : Template) (pre body rest r : string) :
  tagAhead t pre body rest ->
  TrimSpace body = String "/" r ->
  parse env (S fuel) t
  = Err (parseError (curline (afterTag t pre body)) "unmatched close tag").
Proof.
  intros H HT.
  change (parse env (S fuel) t)
    with (parseRound env (parseSection env fuel) (parse env fuel) t).
  unfold parseRound. tag_round H HT. reflexivity.
Qed.

Lemma parse_empty_tag (fuel : nat) (t : Template) (pre body rest : string) :
  tagAhead t pre body rest ->
  TrimSpace body = "" ->
  parse env (S fuel) t
  = Err (parseError (curline (afterTag t pre body)) "empty tag").
Proof.
  intros H HT.
  change (parse env (S fuel) t)
    with (parseRound env (parseSection env fuel) (parse env fuel) t).
  unfold parseRound. tag_round H HT. reflexivity.
Qed.

Lemma parse_open_tag (fuel : nat) (t : Template) (pre post : string) :
  otag t <> "" -> ctag t <> "" ->
  nextOccurrence (otag t) (drop (p t) (data t)) pre post ->
  absent (ctag t) post ->
  parse env (S fuel) t
  = Err (parseError (curline (afterText t pre (otag t))) "unmatched open tag").
Proof.
  intros Ho Hc N1 Habs. pose proof N1 as [E1 _].
  change (parse env (S fuel) t)
    with (parseRound env (parseSection env fuel) (parse env fuel) t).
  unfold parseRound.
  rewrite (readString_found t (otag t) pre post Ho N1). cbv zeta.
  fold (afterText t pre (otag t)).
  set (u := add_elem (afterText t pre (otag t)) _).
  assert (D1 : drop (p u) (data u) = post).
  { unfold u, afterText. cbn [p data set_scan add_elem].
    rewrite <- Nat.add_assoc, <- length_append. apply drop_past.
    now rewrite append_assoc. }
  destruct (byteIs (data u) (p u) "{").
  - rewrite (readString_absent u ("}" ++ ctag u)); [reflexivity | discriminate|].
    rewrite D1. now apply absent_cons.
  - rewrite (readString_absent u (ctag u)); [reflexivity | exact Hc|].
    now rewrite D1.
Qed.










End TagFacts.

(* ================================================================= *)
(** * The claims *)




(** C7 (as amended).  A delimiter-change tag, wherever it stands in the
    input, at the top level or inside a section and under whatever
    delimiters are active, is handled by the same rule.  A tag whose
    trimmed body does not end in [=] fails the parse with the parse error
    "Invalid meta tag" at the current line.  A tag flanked by [=] is
    accepted: when its inner body, trimmed, holds a space, the delimiters
    become the text before and the text after the first space and the
    parse goes on under them; when it holds none, the tag is skipped and
    the delimiters stay as they are, without an error. *)
Theorem C7_delimiter_change_tag (env : Env) (t : Template) :
  (forall body c,
      c <> "="%char ->
      metaTag t (body ++ String c "")
      = Err (parseError (curline t) "Invalid meta tag"))
  /\ (forall inner,
         metaTag t ("=" ++ inner ++ "=") =
           match cut " " (TrimSpace inner) with
           | Some (o, c) => Ok (set_tags t o c)
           | None => Ok t
           end)
  /\ (forall inner o c,
         cut " " (TrimSpace inner) = Some (o, c) ->
         TrimSpace inner = o ++ " " ++ c /\ containsByte " " o = false
         /\ o <> "" /\ c <> "")
  /\ (forall fuel sec pre body rest r,
         tagAhead t pre body rest ->
         TrimSpace body = String "=" r ->
         parse env (S fuel) t
         = match metaTag (afterTag t pre body) (TrimSpace body) with
           | Ok t' => parse env fuel t'
           | Err e => Err e
           | Panics => Panics
           | OutOfFuel => OutOfFuel
           end
         /\ parseSection env (S fuel) t sec
            = match metaTag (afterTagS t pre body) (TrimSpace body) with
              | Ok t' =>
                  parseSection env fuel t' (sec_add_elem sec (textElement pre))
              | Err e => Err e
              | Panics => Panics
              | OutOfFuel => OutOfFuel
              end)
  /\ (forall fuel sec pre body rest r c,
         tagAhead t pre body rest ->
         TrimSpace body = String "=" (r ++ String c "") ->
         c <> "="%char ->
         parse env (S fuel) t
         = Err (parseError (curline (afterTag t pre body)) "Invalid meta tag")
         /\ parseSection env (S fuel) t sec
            = Err (parseError (curline (afterTagS t pre body))
                     "Invalid meta tag"))
  /\ (forall fuel sec pre body rest inner,
         tagAhead t pre body rest ->
         TrimSpace body = "=" ++ inner ++ "=" ->
         parse env (S fuel) t
         = parse env fuel
             match cut " " (TrimSpace inner) with
             | Some (o, c) => set_tags (afterTag t pre body) o c
             | None => afterTag t pre body
             end
         /\ parseSection env (S fuel) t sec
            = parseSection env fuel
                match cut " " (TrimSpace inner) with
                | Some (o, c) => set_tags (afterTagS t pre body) o c
                | None => afterTagS t pre body
                end
                (sec_add_elem sec (textElement pre)))
  /\ (forall fuel, 2 <= fuel ->
         ParseString env fuel "{{=x}}" = Err (parseError 1 "Invalid meta tag"))
  /\ (forall fuel, 3 <= fuel ->
         ParseString env fuel "{{=x=}}{{y}}"
         = Ok (mkTemplate "{{=x=}}{{y}}" "{{" "}}" 12 1 (Getenv_CWD env)
                 [textElement ""; textElement ""; varElement "y" false;
                  textElement ""]))
  /\ (forall fuel, 4 <= fuel ->
         ParseString env fuel "{{=<% %>=}}<%v%>{{v}}"
         = Ok (mkTemplate "{{=<% %>=}}<%v%>{{v}}" "<%" "%>" 16 1 (Getenv_CWD env)
                 [textElement ""; textElement ""; varElement "v" false;
                  textElement "{{v}}"]))
  /\ (forall fuel, 4 <= fuel ->
         ParseString env fuel "{{#s}}{{=<% %>=}}<%v%><%/s%>"
         = Ok (mkTemplate "{{#s}}{{=<% %>=}}<%v%><%/s%>" "<%" "%>" 28 1
                 (Getenv_CWD env)
                 [textElement "";
                  sectionElement
                    (mkSection "s" false 1
                       [textElement ""; textElement ""; varElement "v" false;
                        textElement ""]);
                  textElement ""]))
  /\ (forall fuel, 3 <= fuel ->
         ParseString env fuel "{{#s}}{{=x}}{{/s}}"
         = Err (parseError 1 "Invalid meta tag")).
Proof.
  split; [|split; [|split; [|split; [|split; [|split; [|split; [|split;
    [|split; [|split]]]]]]]]].
  - intros body c Hc. now apply metaTag_unflanked.
  - apply metaTag_flanked.
  - intros inner o c H. pose proof (cut_TrimSpace_nonempty _ _ _ H) as [Ho Hc].
    apply cut_spec in H as [E Hno]. now repeat split.
  - intros fuel sec pre body rest r H HT. split.
    + exact (parse_meta_tag env fuel t pre body rest r H HT).
    + exact (parseSection_meta_tag env fuel t sec pre body rest r H HT).
  - intros fuel sec pre body rest r c H HT Hc. split.
    + rewrite (parse_meta_tag env fuel t pre body rest _ H HT), HT.
      change (String "=" (r ++ String c "")) with (String "="%char r ++ String c "").
      now rewrite metaTag_unflanked.
    + rewrite (parseSection_meta_tag env fuel t sec pre body rest _ H HT), HT.
      change (String "=" (r ++ String c "")) with (String "="%char r ++ String c "").
      now rewrite metaTag_unflanked.
  - intros fuel sec pre body rest inner H HT. split.
    + rewrite (parse_meta_tag env fuel t pre body rest _ H HT), HT.
      rewrite metaTag_flanked.
      now destruct (cut " " (TrimSpace inner)) as [[o c]|].
    + rewrite (parseSection_meta_tag env fuel t sec pre body rest _ H HT), HT.
      rewrite metaTag_flanked.
      now destruct (cut " " (TrimSpace inner)) as [[o c]|].
  - intros fuel Hf. apply (ParseString_fuel_le env 2 fuel); auto; discriminate.
  - intros fuel Hf. apply (ParseString_fuel_le env 3 fuel); auto; discriminate.
  - intros fuel Hf. apply (ParseString_fuel_le env 4 fuel); auto; discriminate.
  - intros fuel Hf. apply (ParseString_fuel_le env 4 fuel); auto; discriminate.
  - intros fuel Hf. apply (ParseString_fuel_le env 3 fuel); auto; discriminate.
Qed.

Lemma C7_delimiter_change_tag_witness :
  let t := mkTemplate "{{#s}}{{=<% %>=}}<%/s%>" "{{" "}}" 6 1 ""
             [textElement ""] in
  tagAhead t "" "=<% %>=" "<%/s%>"
  /\ parseSection noFiles 2 t (mkSection "s" false 1 [])
     = Ok (mkTemplate "{{#s}}{{=<% %>=}}<%/s%>" "<%" "%>" 23 1 ""
             [textElement ""],
           mkSection "s" false 1 [textElement ""; textElement ""]).
Proof.
  cbv zeta.
  assert (H : tagAhead (mkTemplate "{{#s}}{{=<% %>=}}<%/s%>" "{{" "}}" 6 1 ""
                          [textElement ""]) "" "=<% %>=" "<%/s%>")
    by (apply tagAhead_default; reflexivity).
  split; [exact H|].
  destruct (C7_delimiter_change_tag noFiles
              (mkTemplate "{{#s}}{{=<% %>=}}<%/s%>" "{{" "}}" 6 1 ""
                 [textElement ""]))
    as [_ [_ [_ [_ [_ [F _]]]]]].
  destruct (F 1 (mkSection "s" false 1 []) "" "=<% %>=" "<%/s%>" "<% %>"
              H eq_refl) as [_ ->].
  vm_compute. reflexivity.
Defined.

(** C7, the claim as stated fails: the tag [=x=] does not have the form
    asked for, and the parse goes through with the delimiters unchanged. *)
Lemma C7_counterexample :
  ~ metaForm "=x="
  /\ ParseString noFiles 3 "{{=x=}}{{y}}"
     = Ok (mkTemplate "{{=x=}}{{y}}" "{{" "}}" 12 1 ""
             [textElement ""; textElement ""; varElement "y" false;
              textElement ""]).
Proof.
  split; [|reflexivity].
  intros [o [c [E [Ho [Hc _]]]]].
  destruct o as [|a [|b [|d o]]]; simpl in E; try congruence;
    inversion E; subst; try discriminate.
Qed.

(** C8 (as amended).  The open and the close delimiter are non-empty
    strings throughout: they are in the state a parse starts from, a
    delimiter-change tag keeps them so, and so does every call of [parse]
    and [parseSection], nested sections and partials included. *)
Theorem C8_delimiters_nonempty (env : Env) :
  (forall d dir, delimsOk (newTemplate d dir))
  /\ (forall t tag t', delimsOk t -> metaTag t tag = Ok t' -> delimsOk t')
  /\ (forall fuel t t', delimsOk t -> parse env fuel t = Ok t' -> delimsOk t')
  /\ (forall fuel t sec t' sec',
         delimsOk t -> parseSection env fuel t sec = Ok (t', sec') -> delimsOk t')
  /\ (forall fuel d t, ParseString env fuel d = Ok t -> delimsOk t)
  /\ (forall fuel f t, ParseFile env fuel f = Ok t -> delimsOk t).
Proof.
  split; [|split; [|split; [|split; [|split]]]].
  - apply delimsOk_newTemplate.
  - intros t tag t' Ht H. exact (delimsOk_metaTag _ _ _ H Ht).
  - intros fuel t t' Ht H. exact (proj2 (parse_delims env fuel) _ _ H Ht).
  - intros fuel t sec t' sec' Ht H.
    exact (proj1 (parse_delims env fuel) _ _ _ _ H Ht).
  - intros fuel d t H.
    exact (proj2 (parse_delims env fuel) _ _ H (delimsOk_newTemplate _ _)).
  - apply ParseFile_delims.
Qed.

(** C8, the claim as stated fails: after the tag [=| |=] the open and the
    close delimiter are the same string. *)
Lemma C8_counterexample :
  let t := mkTemplate "{{=| |=}}|y|" "|" "|" 12 1 ""
             [textElement ""; textElement ""; varElement "y" false;
              textElement ""] in
  ParseString noFiles 3 "{{=| |=}}|y|" = Ok t /\ otag t = ctag t.
Proof. cbv zeta. split; vm_compute; reflexivity. Qed.






(** C3 (as amended).  A name that holds a dot and is not [.] is split at
    its first dot; the head is resolved against the whole chain and the
    rest against the chain that holds that result alone, so that the rest
    never falls back to the outer frames.  The name [.] resolves to the
    first valid value of the chain, unchanged: to the top of the chain
    whenever that one is valid, and to the zero value when no frame is
    valid.  Rendering [{{a.b}}] with [a] bound to a map that binds [b] to
    [x] gives [x], and [{{a.c}}] gives the empty string, also when an
    outer frame binds [c]. *)
Theorem C3_dotted_names (Sprint : value -> string) (env : Env) :
  (forall s, Sprint (Str s) = s) ->
  (forall chain head rest,
      containsByte "." head = false ->
      head ++ "." ++ rest <> "." ->
      lookup chain (head ++ "." ++ rest) = lookup [lookup chain head] rest)
  /\ (forall chain chain' head rest,
         containsByte "." head = false ->
         head ++ "." ++ rest <> "." ->
         lookup chain head = lookup chain' head ->
         lookup chain (head ++ "." ++ rest) = lookup chain' (head ++ "." ++ rest))
  /\ (forall pre c rest,
         Forall (fun v => v = Invalid) pre ->
         IsValid c = true ->
         findMethod "." (methodsOf c) = None ->
         lookup (pre ++ c :: rest)%list "." = c)
  /\ (forall chain,
         Forall (fun v => v = Invalid) chain -> lookup chain "." = Invalid)
  /\ (forall fuel, 2 <= fuel ->
         Render Sprint env fuel "{{a.b}}" [Map [("a", Map [("b", Str "x")])]]
         = Ok "x")
  /\ (forall fuel, 2 <= fuel ->
         Render Sprint env fuel "{{a.c}}" [Map [("a", Map [("b", Str "x")])]]
         = Ok "")
  /\ (forall fuel, 2 <= fuel ->
         Render Sprint env fuel "{{a.c}}"
           [Map [("a", Map [("b", Str "x")]); ("c", Str "outer")]]
         = Ok "").
Proof.
  intros HS. split; [|split; [|split; [|split; [|split; [|split]]]]].
  - apply lookup_dotted.
  - intros chain chain' head rest Hh Hne E.
    now rewrite !lookup_dotted, E by assumption.
  - apply lookup_dot.
  - intros chain H. now apply lookupFuel_invalid.
  - intros fuel Hf. apply (Render_fuel_le env Sprint 2 fuel); [exact Hf|].
    vm_compute. now rewrite (HS "x").
  - intros fuel Hf. apply (Render_fuel_le env Sprint 2 fuel); [exact Hf|].
    vm_compute. reflexivity.
  - intros fuel Hf. apply (Render_fuel_le env Sprint 2 fuel); [exact Hf|].
    vm_compute. reflexivity.
Qed.

Lemma C3_dotted_names_witness :
  (forall s, SprintScalar (Str s) = s)
  /\ lookup [Map [("a", Map [("b", Str "x")]); ("b", Str "outer")]] "a.b"
     = lookup [lookup [Map [("a", Map [("b", Str "x")]); ("b", Str "outer")]] "a"] "b".
Proof.
  split; [reflexivity|].
  destruct (C3_dotted_names SprintScalar noFiles (fun s => eq_refl)) as [H _].
  apply (H _ "a" "b"); [reflexivity | discriminate].
Defined.

(** C3, the claim as stated fails: with a nil first context the top of the
    chain is the zero value, and [.] resolves to the frame below it. *)
Lemma C3_counterexample :
  lookup [Invalid; Str "x"] "." = Str "x"
  /\ hd Invalid [Invalid; Str "x"] <> lookup [Invalid; Str "x"] "."
  /\ Render SprintScalar noFiles 2 "{{.}}" [Invalid; Str "x"] = Ok "x".
Proof.
  split; [reflexivity|]. split; [discriminate | vm_compute; reflexivity].
Qed.

(** C4 (as amended).  A variable element emits nothing when its name
    resolves to the zero value, and also when it resolves to a value read
    through an unexported struct field: [Interface()] panics on such a
    value before anything is written, and the deferred [recover] of
    [renderElement] ends the call.  Otherwise it emits the stringified
    value, HTML-escaped unless the element is raw.  Escaping, the
    ampersand substituted first, replaces every ampersand, double quote,
    apostrophe, less-than and greater-than byte by [&amp;], [&quot;],
    [&apos;], [&lt;] and [&gt;] and leaves the other bytes alone. *)
Theorem C4_variable_element (Sprint : value -> string) (env : Env) :
  (forall s, Sprint (Str s) = s) ->
  (forall vname raw chain buf,
      IsValid (lookup chain vname) = false ->
      renderElement Sprint (varElement vname raw) chain buf = Ok buf)
  /\ (forall vname raw chain buf,
         IsValid (lookup chain vname) = true ->
         CanInterface (lookup chain vname) = false ->
         renderElement Sprint (varElement vname raw) chain buf = Ok buf)
  /\ (forall vname chain buf,
         IsValid (lookup chain vname) = true ->
         CanInterface (lookup chain vname) = true ->
         renderElement Sprint (varElement vname false) chain buf
         = Ok (buf ++ htmlEscape (Sprint (lookup chain vname))))
  /\ (forall vname chain buf,
         IsValid (lookup chain vname) = true ->
         CanInterface (lookup chain vname) = true ->
         renderElement Sprint (varElement vname true) chain buf
         = Ok (buf ++ Sprint (lookup chain vname)))
  /\ (forall fields vname u rest,
         containsByte "." vname = false ->
         IsValid u = true ->
         FieldByName fields vname = Unexported u ->
         lookup (Struct fields :: rest) vname = Unexported u
         /\ forall raw buf,
              renderElement Sprint (varElement vname raw)
                (Struct fields :: rest) buf = Ok buf)
  /\ (forall s, htmlEscape s = escapeEach s)
  /\ (forall fuel, 2 <= fuel ->
         Render Sprint env fuel "{{v}}"
           [Map [("v", Str ("<b>&" ++ String dquote "'"))]]
         = Ok ("&lt;b&gt;&amp;&quot;&apos;"))
  /\ (forall fuel, 2 <= fuel ->
         Render Sprint env fuel "{{{v}}}"
           [Map [("v", Str ("<b>&" ++ String dquote "'"))]]
         = Ok ("<b>&" ++ String dquote "'")).
Proof.
  intros HS.
  split; [|split; [|split; [|split; [|split; [|split; [|split]]]]]].
  - intros vname raw chain buf H. rewrite renderElement_var, H.
    now rewrite append_nil_r.
  - intros vname raw chain buf H Hc. rewrite renderElement_var, H, Hc.
    now rewrite append_nil_r.
  - intros vname chain buf H Hc. now rewrite renderElement_var, H, Hc.
  - intros vname chain buf H Hc. now rewrite renderElement_var, H, Hc.
  - intros fields vname u rest Hd Hu Hf.
    assert (E : lookup (Struct fields :: rest) vname = Unexported u).
    { assert (En : String.eqb vname "." = false).
      { apply String.eqb_neq. intros ->. discriminate. }
      rewrite lookup_plain by (unfold dotted; now rewrite Hd, andb_false_r).
      cbn [lookupChain]. unfold lookupFrame.
      cbn [walkFrame methodsOf findMethod find]. rewrite En.
      cbn [underlying]. cbv zeta. rewrite Hf. cbn [IsValid]. rewrite Hu.
      reflexivity. }
    split; [exact E|]. intros raw buf.
    rewrite renderElement_var, E. cbn [IsValid CanInterface]. rewrite Hu.
    now rewrite append_nil_r.
  - apply htmlEscape_escapeEach.
  - intros fuel Hf. apply (Render_fuel_le env Sprint 2 fuel); [exact Hf|].
    vm_compute. rewrite HS. vm_compute. reflexivity.
  - intros fuel Hf. apply (Render_fuel_le env Sprint 2 fuel); [exact Hf|].
    vm_compute. rewrite HS. reflexivity.
Qed.

Lemma C4_variable_element_witness :
  (forall s, SprintScalar (Str s) = s)
  /\ Render SprintScalar noFiles 2 "{{v}}"
       [Map [("v", Str ("<b>&" ++ String dquote "'"))]]
     = Ok ("&lt;b&gt;&amp;&quot;&apos;").
Proof.
  split; [reflexivity|].
  destruct (C4_variable_element SprintScalar noFiles (fun s => eq_refl))
    as [_ [_ [_ [_ [_ [_ [H _]]]]]]].
  apply (H 2). apply le_n.
Defined.

(** C4, the claim as stated fails: the name [hidden] resolves to a valid
    value, the string [s] held by an unexported field, whose stringified
    form is not empty, and the variable emits nothing. *)
Lemma C4_counterexample :
  let person := Struct [("Name", Str "n"); ("hidden", Unexported (Str "s"))] in
  lookup [person] "hidden" = Unexported (Str "s")
  /\ IsValid (lookup [person] "hidden") = true
  /\ htmlEscape (SprintScalar (lookup [person] "hidden")) = "s"
  /\ Render SprintScalar noFiles 2 "{{hidden}}" [person] = Ok ""
  /\ Render SprintScalar noFiles 2 "{{{hidden}}}" [person] = Ok ""
  /\ Render SprintScalar noFiles 2 "{{Name}}" [person] = Ok "n".
Proof. cbv zeta. repeat split; vm_compute; reflexivity. Qed.

(** C2, the code at the failing input.  [isEmpty] tells a zero-length slice
    empty but not a zero-length array, which [renderSection] iterates over
    like a slice: an inverted section over a zero-length array emits
    nothing, and so does the plain section.  The two renderings the claim
    quotes, over slices, come out as it says. *)
Theorem C2_zero_length_array (Sprint : value -> string) (env : Env) :
  isEmpty (Array []) = Some false
  /\ isEmpty (Slice []) = Some true
  /\ (forall fuel, 3 <= fuel ->
         Render Sprint env fuel "{{^a}}empty{{/a}}" [Map [("a", Array [])]]
         = Ok "")
  /\ (forall fuel, 3 <= fuel ->
         Render Sprint env fuel "{{#a}}full{{/a}}" [Map [("a", Array [])]]
         = Ok "")
  /\ (forall fuel, 3 <= fuel ->
         Render Sprint env fuel "{{^a}}empty{{/a}}" [Map [("a", Slice [])]]
         = Ok "empty")
  /\ (forall fuel, 3 <= fuel ->
         Render Sprint env fuel "{{^a}}empty{{/a}}" [Map [("a", Slice [Int 1])]]
         = Ok "").
Proof.
  split; [reflexivity|]. split; [reflexivity|].
  repeat split; intros fuel Hf;
    (apply (Render_fuel_le env Sprint 3 fuel); [exact Hf|]);
    vm_compute; reflexivity.
Qed.

(** C1, the code at the failing input.  A section over a truthy scalar,
    and an inverted section over an empty value, render their children
    under the chain extended by its last frame, the outermost one.  Inside
    the section [a], whose frame binds [x] to [inner], the variable [x]
    resolves to [inner]; wrapped in the truthy section [b], or in the
    inverted section [n], it resolves to the [outer] of the root frame. *)
Theorem C1_truthy_section_rebinds_to_root :
  let inner := Map [("x", Interface (Str "inner")); ("b", Interface (Bool true))] in
  let root := Map [("x", Interface (Str "outer")); ("a", Interface inner)] in
  lookup [Interface inner; root] "x" = Interface (Str "inner")
  /\ lookup [root; Interface inner; root] "x" = Interface (Str "outer")
  /\ Render SprintScalar noFiles 5 "{{#a}}{{x}}{{/a}}" [root] = Ok "inner"
  /\ Render SprintScalar noFiles 5 "{{#a}}{{#b}}{{x}}{{/b}}{{/a}}" [root]
     = Ok "outer"
  /\ Render SprintScalar noFiles 5 "{{#a}}{{^n}}{{x}}{{/n}}{{/a}}" [root]
     = Ok "outer".
Proof. cbv zeta. repeat split; vm_compute; reflexivity. Qed.

(** C10.  Rendering with no context at all panics as soon as a section is
    reached, whether inverted or not, at the top level or inside a
    partial: [renderSection] indexes the last frame of the empty chain.  A
    template that reaches no section renders to its literal text, its
    variables resolving to nothing. *)
Theorem C10_empty_chain (Sprint : value -> string) (env : Env) :
  (forall t,
      Template_Render Sprint t [] =
        if existsb hasSection (elems t) then Panics
        else Ok (joinText (map textOf (elems t))))
  /\ (forall sec buf, renderSection Sprint sec [] buf = Panics)
  /\ (forall fuel, 3 <= fuel ->
         Render Sprint env fuel "a{{#s}}b{{/s}}" [] = Panics)
  /\ (forall fuel, 3 <= fuel ->
         Render Sprint env fuel "a{{^s}}b{{/s}}" [] = Panics)
  /\ (forall fuel, 3 <= fuel ->
         Render Sprint env fuel "a{{v}}b{{{w.x}}}c" [] = Ok "abc").
Proof.
  split; [|split; [|split; [|split]]].
  - apply Render_nil_chain.
  - reflexivity.
  - intros fuel Hf. unfold Render.
    assert (E : ParseString env 3 "a{{#s}}b{{/s}}"
                = Ok (mkTemplate "a{{#s}}b{{/s}}" "{{" "}}" 14 1 (Getenv_CWD env)
                        [textElement "a";
                         sectionElement (mkSection "s" false 1
                                           [textElement "b"]);
                         textElement ""]))
      by (vm_compute; reflexivity).
    rewrite (ParseString_fuel_le env 3 fuel _ _ Hf E) by discriminate.
    reflexivity.
  - intros fuel Hf. unfold Render.
    assert (E : ParseString env 3 "a{{^s}}b{{/s}}"
                = Ok (mkTemplate "a{{^s}}b{{/s}}" "{{" "}}" 14 1 (Getenv_CWD env)
                        [textElement "a";
                         sectionElement (mkSection "s" true 1
                                           [textElement "b"]);
                         textElement ""]))
      by (vm_compute; reflexivity).
    rewrite (ParseString_fuel_le env 3 fuel _ _ Hf E) by discriminate.
    reflexivity.
  - intros fuel Hf. apply (Render_fuel_le env Sprint 3 fuel); [exact Hf|].
    vm_compute. reflexivity.
Qed.

(* ================================================================= *)
(** * Further properties of the code *)

(** ** The scanner keeps inside the input *)

Section ScanBounds.

Lemma readString_cases (t : Template) (s : string) :
  s <> "" ->
  (absent s (drop (p t) (data t))
   /\ readString t s = ReadEOF (drop (p t) (data t)))
  \/ (exists pre post,
        nextOccurrence s (drop (p t) (data t)) pre post
        /\ readString t s =
             ReadOk (pre ++ s)
               (set_scan t (p t + String.length pre + String.length s)
                  (curline t + (count newline pre
                                + (if byteIs s 0 newline then 1 else 0))))).
Proof.
  intros Hs. destruct (occurrence_dec s (drop (p t) (data t)))
    as [[pre [post Hocc]]|Habs].
  - right. exists pre, post. split; [exact Hocc|].
    exact (readString_found t s pre post Hs Hocc).
  - left. split; [exact Habs|]. now apply readString_absent.
Qed.

Lemma nonempty_length (s : string) : s <> "" -> 0 < String.length s.
Proof. destruct s; [congruence | simpl; lia]. Qed.

(** X1.  With a non-empty marker [readString] never panics, and when it
    finds the marker it leaves everything but position and line counter
    alone, moves the position forward by the length of the text it
    returns, never past the end of the input, and never lowers the line
    counter; the text it returns ends with the marker and is the input
    between the old and the new position. *)
Theorem readString_progress (t : Template) (s : string) :
  s <> "" ->
  readString t s <> ReadPanic
  /\ forall text t',
       readString t s = ReadOk text t' ->
       t' = set_scan t (p t') (curline t')
       /\ p t < p t'
       /\ p t' <= String.length (data t)
       /\ p t' = p t + String.length text
       /\ curline t <= curline t'
       /\ (exists pre, text = pre ++ s)
       /\ drop (p t) (data t) = text ++ drop (p t') (data t).
Proof.
  intros Hs. pose proof (nonempty_length s Hs) as Hlen.
  destruct (readString_cases t s Hs) as [[_ E]|[pre [post [[Ed _] E]]]];
    rewrite E; (split; [discriminate|]); intros text t' H; [discriminate|].
  inversion H; subst text t'. cbn [p curline set_scan].
  pose proof (length_drop (p t) (data t)) as L. rewrite Ed in L.
  rewrite !length_append in L.
  repeat split; try lia.
  - rewrite length_append. lia.
  - now exists pre.
  - rewrite Ed, append_assoc. f_equal.
    replace (p t + String.length pre + String.length s)
      with (p t + String.length (pre ++ s)) by (rewrite length_append; lia).
    rewrite <- drop_drop, Ed, <- append_assoc. now rewrite drop_length_append.
Qed.

Lemma readString_progress_witness :
  "{{" <> ""
  /\ forall text t',
       readString (newTemplate "ab{{c" "") "{{" = ReadOk text t' -> 0 < p t'.
Proof.
  assert (Hs : "{{" <> "") by discriminate.
  split; [exact Hs|]. intros text t' H.
  destruct (readString_progress (newTemplate "ab{{c" "") "{{" Hs) as [_ Hp].
  destruct (Hp text t' H) as [_ [Hlt _]]. exact Hlt.
Defined.

End ScanBounds.

(** ** What a parse keeps *)

Section ParseKeeps.

Lemma scan_Match_bounds (data s : string) :
  forall fuel i nl j nl',
    scan fuel data s i nl = Match j nl' ->
    i <= j /\ j + String.length s <= String.length data.
Proof.
  induction fuel as [|fuel IH]; intros i nl j nl'; cbn [scan]; [discriminate|].
  destruct (Nat.ltb_spec (String.length data) (i + String.length s)) as [Hlt|Hge];
    [discriminate|].
  destruct (at_ data i) as [d|]; [|discriminate].
  destruct (at_ s 0) as [s0|]; [|discriminate].
  destruct (negb (Ascii.eqb d s0)).
  - intros H. apply IH in H. lia.
  - destruct (matchRest _ _ _ _ _) as [[|]|]; try discriminate.
    + intros H. inversion H; subst. lia.
    + intros H. apply IH in H. lia.
Qed.

Lemma readString_bounds (t : Template) (s text : string) (t' : Template) :
  readString t s = ReadOk text t' ->
  t' = set_scan t (p t') (curline t')
  /\ p t <= p t' /\ p t' <= String.length (data t).
Proof.
  unfold readString.
  destruct (scan _ _ _ _ _) as [j nl| |] eqn:E; try discriminate.
  intros H. inversion H; subst. cbn [p curline set_scan].
  apply scan_Match_bounds in E. repeat split; lia.
Qed.

Lemma follows_refl (t : Template) : follows t t.
Proof. repeat split; auto. exists []. now rewrite app_nil_r. Qed.

Lemma follows_trans (a b c : Template) :
  follows a b -> follows b c -> follows a c.
Proof.
  intros [Hd [Hr [Hp [Hb [m He]]]]] [Hd' [Hr' [Hp' [Hb' [m' He']]]]].
  repeat split; try congruence; try lia.
  - intros H. rewrite Hd in Hb'. auto.
  - exists (m ++ m')%list. now rewrite He', He, app_assoc.
Qed.

Lemma followsS_refl (t : Template) : followsS t t.
Proof. split; [apply follows_refl | reflexivity]. Qed.

Lemma followsS_trans (a b c : Template) :
  followsS a b -> followsS b c -> followsS a c.
Proof.
  intros [H1 E1] [H2 E2]. split; [now apply follows_trans with b | congruence].
Qed.

Lemma followsS_readString (t : Template) (s text : string) (t' : Template) :
  readString t s = ReadOk text t' -> followsS t t'.
Proof.
  intros H. apply readString_bounds in H as [E [Hp Hb]].
  rewrite E. cbn [followsS follows data dir p elems set_scan].
  unfold followsS, follows. cbn [data dir p elems set_scan].
  repeat split; auto. exists []. now rewrite app_nil_r.
Qed.

Lemma followsS_skipNewline (t : Template) : followsS t (skipNewline t).
Proof.
  unfold skipNewline, byteIs.
  destruct (at_ (data t) (p t)) as [c|] eqn:E0; [|apply followsS_refl].
  assert (H0 : p t < String.length (data t)).
  { rewrite at_drop in E0. destruct (drop (p t) (data t)) eqn:D; [discriminate|].
    pose proof (length_drop (p t) (data t)) as L. rewrite D in L. simpl in L. lia. }
  destruct (Ascii.eqb c newline).
  { unfold followsS, follows, set_p. cbn [data dir p elems set_scan].
    repeat split; try lia. exists []. now rewrite app_nil_r. }
  destruct (Ascii.eqb c cr); [|apply followsS_refl].
  destruct (at_ (data t) (p t + 1)) as [c1|] eqn:E1; [|apply followsS_refl].
  assert (H1 : p t + 1 < String.length (data t)).
  { rewrite at_drop in E1.
    destruct (drop (p t + 1) (data t)) eqn:D; [discriminate|].
    pose proof (length_drop (p t + 1) (data t)) as L. rewrite D in L.
    simpl in L. lia. }
  destruct (Ascii.eqb c1 newline); [|apply followsS_refl].
  unfold followsS, follows, set_p. cbn [data dir p elems set_scan andb].
  repeat split; try lia. exists []. now rewrite app_nil_r.
Qed.

Lemma followsS_metaTag (t : Template) (tag : string) (t' : Template) :
  metaTag t tag = Ok t' -> followsS t t'.
Proof.
  intros H. destruct (metaTag_Ok _ _ _ H) as [->|[o [c [-> _]]]];
    [apply followsS_refl|].
  unfold followsS, follows. cbn [data dir p elems set_tags].
  repeat split; auto. exists []. now rewrite app_nil_r.
Qed.

Lemma follows_add_elem (t : Template) (e : element) : follows t (add_elem t e).
Proof.
  unfold follows. cbn [data dir p elems add_elem]. repeat split; auto.
  now exists [e].
Qed.

Lemma secGrows_refl (s : section_t) : secGrows s s.
Proof. repeat split. exists []. now rewrite app_nil_r. Qed.

Lemma secGrows_trans (a b c : section_t) :
  secGrows a b -> secGrows b c -> secGrows a c.
Proof.
  intros [H1 [H2 [H3 [m H4]]]] [G1 [G2 [G3 [m' G4]]]].
  repeat split; try congruence.
  exists (m ++ m')%list. now rewrite G4, H4, app_assoc.
Qed.

Lemma secGrows_add_elem (s : section_t) (e : element) :
  secGrows s (sec_add_elem s e).
Proof. repeat split. now exists [e]. Qed.

(** The steps in the shape the proof search wants: the equation that
    names the next state first. *)
Lemma fS_read (a t : Template) (s text : string) (t' : Template) :
  readString t s = ReadOk text t' -> followsS a t -> followsS a t'.
Proof. intros H Ha. eapply followsS_trans; [exact Ha | eapply followsS_readString, H]. Qed.

Lemma fS_readIf (b : bool) (a t : Template) (s1 s2 text : string) (t' : Template) :
  (if b then readString t s1 else readString t s2) = ReadOk text t' ->
  followsS a t -> followsS a t'.
Proof. destruct b; apply fS_read. Qed.

Lemma fS_skip (a t : Template) : followsS a t -> followsS a (skipNewline t).
Proof. intros Ha. eapply followsS_trans; [exact Ha | apply followsS_skipNewline]. Qed.

Lemma fS_meta (a t : Template) (tag : string) (t' : Template) :
  metaTag t tag = Ok t' -> followsS a t -> followsS a t'.
Proof. intros H Ha. eapply followsS_trans; [exact Ha | eapply followsS_metaTag, H]. Qed.

Lemma f_of_fS (a t : Template) : followsS a t -> follows a t.
Proof. now intros [H _]. Qed.

Lemma f_read (a t : Template) (s text : string) (t' : Template) :
  readString t s = ReadOk text t' -> follows a t -> follows a t'.
Proof.
  intros H Ha. eapply follows_trans; [exact Ha|].
  apply f_of_fS. eapply followsS_readString, H.
Qed.

Lemma f_readIf (b : bool) (a t : Template) (s1 s2 text : string) (t' : Template) :
  (if b then readString t s1 else readString t s2) = ReadOk text t' ->
  follows a t -> follows a t'.
Proof. destruct b; apply f_read. Qed.

Lemma f_skip (a t : Template) : follows a t -> follows a (skipNewline t).
Proof.
  intros Ha. eapply follows_trans; [exact Ha|].
  apply f_of_fS, followsS_skipNewline.
Qed.

Lemma f_meta (a t : Template) (tag : string) (t' : Template) :
  metaTag t tag = Ok t' -> follows a t -> follows a t'.
Proof.
  intros H Ha. eapply follows_trans; [exact Ha|].
  apply f_of_fS. eapply followsS_metaTag, H.
Qed.

Lemma f_add (a t : Template) (e : element) :
  follows a t -> follows a (add_elem t e).
Proof. intros Ha. eapply follows_trans; [exact Ha | apply follows_add_elem]. Qed.

Lemma sG_add (a s : section_t) (e : element) :
  secGrows a s -> secGrows a (sec_add_elem s e).
Proof. intros Ha. eapply secGrows_trans; [exact Ha | apply secGrows_add_elem]. Qed.

Variable env : Env.

Section Rounds.

Variables (ps : Template -> section_t -> result (Template * section_t))
          (pa : Template -> result Template).
Hypothesis Hps : keepsS ps.
Hypothesis Hpa : keeps pa.

Lemma fS_ps (a t : Template) (sec : section_t) (t' : Template) (sec' : section_t) :
  ps t sec = Ok (t', sec') -> followsS a t -> followsS a t'.
Proof.
  intros H Ha. eapply followsS_trans; [exact Ha | apply (Hps _ _ _ _ H)].
Qed.

Lemma f_ps (a t : Template) (sec : section_t) (t' : Template) (sec' : section_t) :
  ps t sec = Ok (t', sec') -> follows a t -> follows a t'.
Proof.
  intros H Ha. eapply follows_trans; [exact Ha | apply f_of_fS, (Hps _ _ _ _ H)].
Qed.

Lemma sG_ps (a : section_t) (t : Template) (sec : section_t) (t' : Template)
    (sec' : section_t) :
  ps t sec = Ok (t', sec') -> secGrows a sec -> secGrows a sec'.
Proof.
  intros H Ha. eapply secGrows_trans; [exact Ha | apply (Hps _ _ _ _ H)].
Qed.

Lemma f_pa (a t t' : Template) :
  pa t = Ok t' -> follows a t -> follows a t'.
Proof. intros H Ha. eapply follows_trans; [exact Ha | apply (Hpa _ _ H)]. Qed.

Ltac split_all :=
  repeat match goal with
  | |- context [match ?x with _ => _ end] => destruct x eqn:?
  end.

Lemma parseSectionRound_keeps : keepsS (parseSectionRound env ps pa).
Proof.
  intros t sec t' sec'. unfold parseSectionRound. cbv zeta.
  split_all; intros H; try discriminate; try (inversion H; subst);
    (split;
     [ eauto 10 using fS_read, fS_readIf, fS_skip, fS_meta, fS_ps, followsS_refl
     | eauto 10 using sG_add, sG_ps, secGrows_refl ]).
Qed.

Lemma parseRound_keeps : keeps (parseRound env ps pa).
Proof.
  intros t t'. unfold parseRound. cbv zeta.
  split_all; intros H; try discriminate; try (inversion H; subst);
    eauto 12 using f_read, f_readIf, f_skip, f_meta, f_ps, f_pa, f_add,
      follows_refl.
Qed.

End Rounds.

Lemma parse_keeps (fuel : nat) :
  keepsS (parseSection env fuel) /\ keeps (parse env fuel).
Proof.
  induction fuel as [|fuel [IHs IHp]].
  - split; intros ? **; simpl in *; discriminate.
  - split.
    + apply parseSectionRound_keeps; assumption.
    + apply parseRound_keeps; assumption.
Qed.

End ParseKeeps.

(** X2.  A successful parse keeps the input and the base directory, never
    moves the position back or out of the input, and only appends to the
    element list; a successful [parseSection] moreover leaves the element
    list of the template alone and returns the section it was given, same
    name, flag and start line, with more elements. *)
Theorem parse_keeps_input (env : Env) (fuel : nat) :
  (forall t t',
      parse env fuel t = Ok t' ->
      data t' = data t /\ dir t' = dir t /\ p t <= p t'
      /\ (p t <= String.length (data t) -> p t' <= String.length (data t))
      /\ exists more, elems t' = (elems t ++ more)%list)
  /\ (forall t sec t' sec',
         parseSection env fuel t sec = Ok (t', sec') ->
         data t' = data t /\ dir t' = dir t /\ p t <= p t'
         /\ (p t <= String.length (data t) -> p t' <= String.length (data t))
         /\ elems t' = elems t
         /\ name sec' = name sec /\ inverted sec' = inverted sec
         /\ startline sec' = startline sec
         /\ exists more, sec_elems sec' = (sec_elems sec ++ more)%list)
  /\ (forall d t,
         ParseString env fuel d = Ok t ->
         data t = d /\ dir t = Getenv_CWD env /\ p t <= String.length d).
Proof.
  destruct (parse_keeps env fuel) as [Hs Hp]. split; [|split].
  - intros t t' H. exact (Hp _ _ H).
  - intros t sec t' sec' H.
    destruct (Hs _ _ _ _ H) as [[[Hd [Hr [Hq [Hb _]]]] He] [Hn [Hi [Hl Hm]]]].
    repeat split; assumption.
  - intros d t H. destruct (Hp _ _ H) as [Hd [Hr [_ [Hb _]]]].
    repeat split; [exact Hd | exact Hr |]. apply Hb. simpl. lia.
Qed.

(** ** Termination *)

Section Termination.

Variable env : Env.
Hypothesis no_file : forall f, os_Open env f = false.

Lemma parsePartialWith_no_file (pa : Template -> result Template)
    (t : Template) (nm : string) :
  parsePartialWith env pa t nm
  = Err (errorString ("Could not find partial " ++ Quote env nm)).
Proof.
  unfold parsePartialWith, partialFilenames. cbn [find]. now rewrite !no_file.
Qed.

Lemma metaTag_returns (t : Template) (tag : string) : metaTag t tag <> OutOfFuel.
Proof.
  unfold metaTag. destruct (negb _); [discriminate|].
  destruct (sliceChecked _ _ _); [|discriminate].
  destruct (SplitN2 _ _) as [|o [|c [|? ?]]]; discriminate.
Qed.

Lemma rawTag_returns (tag : string) : rawTag tag <> OutOfFuel.
Proof.
  unfold rawTag.
  destruct (GoString.last tag) as [c|]; [destruct (Ascii.eqb c "}")|];
    try discriminate.
  destruct (sliceChecked _ _ _); discriminate.
Qed.

Lemma after_refl (t : Template) : after t t.
Proof. split; [apply follows_refl | auto]. Qed.

Lemma after_trans (a b c : Template) : after a b -> after b c -> after a c.
Proof.
  intros [F1 D1] [F2 D2]. split; [now apply follows_trans with b | auto].
Qed.

Lemma a_read (a t : Template) (s text : string) (t' : Template) :
  readString t s = ReadOk text t' -> after a t -> after a t'.
Proof.
  intros H Ha. eapply after_trans; [exact Ha|]. split.
  - apply f_of_fS. eapply followsS_readString, H.
  - apply (delimsOk_readString _ _ _ _ H).
Qed.

Lemma a_readIf (b : bool) (a t : Template) (s1 s2 text : string) (t' : Template) :
  (if b then readString t s1 else readString t s2) = ReadOk text t' ->
  after a t -> after a t'.
Proof. destruct b; apply a_read. Qed.

Lemma a_skip (a t : Template) : after a t -> after a (skipNewline t).
Proof.
  intros Ha. eapply after_trans; [exact Ha|]. split.
  - apply f_of_fS, followsS_skipNewline.
  - apply delimsOk_skipNewline.
Qed.

Lemma a_meta (a t : Template) (tag : string) (t' : Template) :
  metaTag t tag = Ok t' -> after a t -> after a t'.
Proof.
  intros H Ha. eapply after_trans; [exact Ha|]. split.
  - apply f_of_fS. eapply followsS_metaTag, H.
  - apply (delimsOk_metaTag _ _ _ H).
Qed.

Lemma a_add (a t : Template) (e : element) : after a t -> after a (add_elem t e).
Proof.
  intros Ha. eapply after_trans; [exact Ha|]. split;
    [apply follows_add_elem | exact (fun H => H)].
Qed.

Lemma within_after (m : nat) (a t : Template) :
  after a t -> within m a -> within m t.
Proof.
  intros [[Hd [_ [Hp _]]] Hdel] [Ha Hr]. split; [auto|].
  unfold remaining in *. rewrite Hd. lia.
Qed.

Lemma within_first (m : nat) (t : Template) (text : string) (t' : Template) :
  readString t (otag t) = ReadOk text t' -> within (S m) t -> within m t'.
Proof.
  intros H [Hd Hr]. split; [exact (delimsOk_readString _ _ _ _ H Hd)|].
  destruct (readString_progress t (otag t) (proj1 Hd)) as [_ Hp].
  destruct (Hp _ _ H) as [E [Hlt [Hle _]]].
  unfold remaining in *. rewrite E. cbn [data p set_scan]. lia.
Qed.

Section Rounds.

Variables (m : nat)
          (ps : Template -> section_t -> result (Template * section_t))
          (pa : Template -> result Template).
Hypothesis Hps_after : forall t sec t' sec', ps t sec = Ok (t', sec') -> after t t'.
Hypothesis Hps_fin : forall t sec, within m t -> ps t sec <> OutOfFuel.
Hypothesis Hpa_fin : forall t, within m t -> pa t <> OutOfFuel.

Lemma a_ps (a t : Template) (sec : section_t) (t' : Template) (sec' : section_t) :
  ps t sec = Ok (t', sec') -> after a t -> after a t'.
Proof.
  intros H Ha. eapply after_trans; [exact Ha | exact (Hps_after _ _ _ _ H)].
Qed.

Ltac split_all :=
  repeat match goal with
  | |- context [match ?x with _ => _ end] => destruct x eqn:?
  end.

Ltac chain W :=
  eapply within_after; [|exact W];
  eauto 12 using a_read, a_readIf, a_skip, a_meta, a_add, a_ps, after_refl.

Ltac leaf :=
  try discriminate;
  try match goal with
      | H : metaTag _ _ = OutOfFuel |- _ => now elim (metaTag_returns _ _ H)
      | H : rawTag _ = OutOfFuel |- _ => now elim (rawTag_returns _ H)
      end;
  try match goal with
      | H : parsePartialWith env pa _ _ = _ |- _ =>
          rewrite parsePartialWith_no_file in H; discriminate
      end;
  match goal with
  | H1 : readString ?t (otag ?t) = ReadOk _ ?t1, W0 : within (S m) ?t |- _ =>
      let W := fresh "W" in
      pose proof (within_first m t _ t1 H1 W0) as W;
      first
        [ match goal with
          | H : ps ?X ?se = OutOfFuel |- _ =>
              exfalso; apply (Hps_fin X se); [chain W | exact H]
          end
        | apply Hps_fin; chain W
        | apply Hpa_fin; chain W ]
  end.

Lemma parseSectionRound_returns (t : Template) (sec : section_t) :
  within (S m) t -> parseSectionRound env ps pa t sec <> OutOfFuel.
Proof.
  intros W0. unfold parseSectionRound. cbv zeta. split_all; leaf.
Qed.

Lemma parseRound_returns (t : Template) :
  within (S m) t -> parseRound env ps pa t <> OutOfFuel.
Proof.
  intros W0. unfold parseRound. cbv zeta. split_all; leaf.
Qed.

End Rounds.

Lemma parse_after (fuel : nat) (t : Template) (sec : section_t) (t' : Template)
    (sec' : section_t) :
  parseSection env fuel t sec = Ok (t', sec') -> after t t'.
Proof.
  intros H. split.
  - apply f_of_fS. exact (proj1 (proj1 (parse_keeps env fuel) _ _ _ _ H)).
  - exact (proj1 (parse_delims env fuel) _ _ _ _ H).
Qed.

Lemma parse_returns (n : nat) :
  (forall t sec, within n t -> parseSection env n t sec <> OutOfFuel)
  /\ (forall t, within n t -> parse env n t <> OutOfFuel).
Proof.
  induction n as [|n [IHs IHp]].
  - split; intros t; intros; match goal with H : within 0 _ |- _ =>
      destruct H as [_ H]; unfold remaining in H; lia end.
  - split.
    + intros t sec W. apply parseSectionRound_returns with (m := n); auto.
      intros. eapply parse_after; eassumption.
    + intros t W. apply parseRound_returns with (m := n); auto.
      intros. eapply parse_after; eassumption.
Qed.

End Termination.

(** X3.  When no partial file can be opened, parsing a string of [n]
    bytes returns within [n + 1] rounds of the loops of [parse] and
    [parseSection] taken together: every round consumes at least the open
    delimiter. *)
Theorem ParseString_terminates (env : Env) (d : string) (fuel : nat) :
  (forall f, os_Open env f = false) ->
  String.length d < fuel ->
  ParseString env fuel d <> OutOfFuel.
Proof.
  intros Hno Hf. apply (parse_returns env Hno fuel). split.
  - apply delimsOk_newTemplate.
  - unfold remaining. simpl. lia.
Qed.

Lemma ParseString_terminates_witness :
  (forall f, os_Open noFiles f = false)
  /\ String.length "{{#a}}{{b}}{{/a}}" < 18
  /\ ParseString noFiles 18 "{{#a}}{{b}}{{/a}}" <> OutOfFuel.
Proof.
  assert (Hno : forall f, os_Open noFiles f = false) by reflexivity.
  assert (Hlt : String.length "{{#a}}{{b}}{{/a}}" < 18) by (simpl; lia).
  split; [exact Hno|]. split; [exact Hlt|].
  exact (ParseString_terminates noFiles "{{#a}}{{b}}{{/a}}" 18 Hno Hlt).
Defined.

(** ** Partials that include themselves *)

Section SelfInclusion.

Variable env : Env.

Lemma parseRound_partial_tag
    (ps : Template -> section_t -> result (Template * section_t))
    (pa : Template -> result Template) (nm body dir : string) :
  plain nm = true ->
  let d := "{{>" ++ nm ++ "}}" ++ body in
  let t2 := mkTemplate d "{{" "}}" (String.length nm + 5) 1 dir [textElement ""] in
  parseRound env ps pa (newTemplate d dir) =
    match parsePartialWith env pa t2 nm with
    | Ok partial => pa (add_elem t2 (partialElement partial))
    | Err e => Err e
    | Panics => Panics
    | OutOfFuel => OutOfFuel
    end.
Proof.
  intros Hnm d t2.
  assert (Htag : plain (String ">" nm) = true) by (now apply plain_cons).
  destruct (plain_tag_scan ">" nm body dir Htag) as [R1 [R2 [D2 T]]].
  unfold parseRound. cbn [otag newTemplate]. unfold d.
  change ("{{>" ++ nm ++ "}}" ++ body) with ("{{" ++ String ">" nm ++ "}}" ++ body).
  rewrite R1. cbv zeta.
  replace (byteIs _ _ "{") with false by reflexivity.
  cbn [ctag otag add_elem set_scan newTemplate]. simpl take at 1.
  rewrite R2. cbn [ctag curline add_elem set_scan newTemplate].
  simpl (String.length "}}"). rewrite T, (TrimSpace_plain _ Hnm).
  reflexivity.
Qed.

(** X4.  Nothing looks for cycles among partials: a file whose first tag
    includes a partial that resolves to the file itself sends [ParseFile]
    into a recursion that no budget ends (in Go, until the stack
    overflows). *)
Theorem ParseFile_self_inclusion (f nm body : string) :
  plain nm = true ->
  f <> "" ->
  ReadFile env f = inl ("{{>" ++ nm ++ "}}" ++ body) ->
  path_Join env (fst (path_Split f)) nm = f ->
  os_Open env f = true ->
  forall fuel, ParseFile env fuel f = OutOfFuel.
Proof.
  intros Hnm Hf Hread Hjoin Hopen fuel.
  induction fuel as [|fuel IH]; unfold ParseFile, ParseFileWith; rewrite Hread.
  - reflexivity.
  - change (parse env (S fuel) ?t)
      with (parseRound env (parseSection env fuel) (parse env fuel) t).
    rewrite parseRound_partial_tag by exact Hnm.
    unfold parsePartialWith, partialFilenames. cbn [dir find].
    rewrite Hjoin, Hopen.
    destruct (String.eqb_spec f ""); [contradiction|].
    fold (ParseFile env fuel f). now rewrite IH.
Qed.

End SelfInclusion.

Lemma ParseFile_self_inclusion_witness :
  ParseFile loopFiles 50 "loop" = OutOfFuel.
Proof.
  apply (ParseFile_self_inclusion loopFiles "loop" "loop" "");
    [reflexivity | discriminate | reflexivity | reflexivity | reflexivity].
Defined.

(** ** Flat templates *)

Section FlatFacts.

Lemma solidByte_stripSpace (c : ascii) (r : string) :
  solidByte c = true ->
  stripSpace unicodeSpaces (String c r) = None
  /\ stripSpace (map rev unicodeSpaces) (String c r) = None.
Proof.
  destruct c as [[] [] [] [] [] [] [] []]; intros H;
    first [discriminate H | split; reflexivity].
Qed.

Lemma TrimSpace_solid_ends (s : string) (c : ascii) (r : string)
    (c' : ascii) (r' : string) :
  s = String c r -> rev s = String c' r' ->
  solidByte c = true -> solidByte c' = true ->
  TrimSpace s = s.
Proof.
  intros Es Er Hc Hc'. unfold TrimSpace.
  assert (HL : TrimLeft s = s).
  { unfold TrimLeft. apply trimFront_fixed. rewrite Es.
    exact (proj1 (solidByte_stripSpace c r Hc)). }
  rewrite HL. unfold TrimRight.
  rewrite trimFront_fixed; [apply rev_involutive|].
  rewrite Er. exact (proj2 (solidByte_stripSpace c' r' Hc')).
Qed.

Lemma plain_no_newline_count (s : string) :
  plain s = true -> count newline s = 0.
Proof. apply plain_count_newline. Qed.

(** Reading the literal text before an open delimiter. *)
Lemma read_open (t : Template) (pre rest : string) :
  noBrace pre = true ->
  drop (p t) (data t) = pre ++ "{{" ++ rest ->
  readString t "{{" =
    ReadOk (pre ++ "{{")
      (set_scan t (p t + String.length pre + 2) (curline t + count newline pre))
  /\ drop (p t + String.length pre + 2) (data t) = rest.
Proof.
  intros Hpre E. split.
  - rewrite (readString_found t "{{" pre rest); [|discriminate|].
    + simpl. do 2 f_equal. lia.
    + split; [exact E|]. intros pre' post' E'. rewrite E in E'.
      eapply (noByte_before "{" pre); [|exact E'].
      unfold noBrace in Hpre. now destruct (containsByte "{" pre).
  - replace (p t + String.length pre + 2)
      with (p t + String.length (pre ++ "{{")) by (rewrite length_append; simpl; lia).
    apply drop_past. now rewrite append_assoc.
Qed.

(** Reading a plain tag body up to a marker that starts with a closing
    brace. *)
Lemma read_close (u : Template) (tb m' body : string) :
  plain tb = true ->
  drop (p u) (data u) = tb ++ String "}" m' ++ body ->
  readString u (String "}" m') =
    ReadOk (tb ++ String "}" m')
      (set_scan u (p u + String.length tb + S (String.length m')) (curline u))
  /\ drop (p u + String.length tb + S (String.length m')) (data u) = body.
Proof.
  intros Htb E. split.
  - rewrite (readString_found u (String "}" m') tb body); [|discriminate|].
    + rewrite (plain_count_newline _ Htb). simpl. do 2 f_equal. lia.
    + split; [exact E|]. intros pre' post' E'. rewrite E in E'.
      eapply (plain_before_brace tb); [exact Htb | exact E'].
  - replace (p u + String.length tb + S (String.length m'))
      with (p u + String.length (tb ++ String "}" m'))
      by (rewrite length_append; simpl; lia).
    apply drop_past. now rewrite append_assoc.
Qed.

Lemma containsByte_occurrence (c : ascii) (a b : string) :
  containsByte c (a ++ String c b) = true.
Proof. rewrite containsByte_append. simpl. rewrite Ascii.eqb_refl. apply orb_true_r. Qed.

(** Reading text that holds no open delimiter. *)
Lemma read_eof (t : Template) (text : string) :
  noBrace text = true ->
  drop (p t) (data t) = text ->
  readString t "{{" = ReadEOF text.
Proof.
  intros Ht E. rewrite <- E. apply readString_absent; [discriminate|].
  rewrite E. intros pre post E'. unfold noBrace in Ht.
  rewrite E' in Ht. simpl in Ht. now rewrite containsByte_occurrence in Ht.
Qed.

End FlatFacts.

Section FlatParse.

Variable env : Env.

Lemma plain_rev_head (s : string) (c : ascii) (r : string) :
  plain s = true -> rev s = String c r -> plainByte c = true.
Proof.
  intros H E. rewrite <- plain_rev, E in H. simpl in H.
  now apply andb_prop in H as [Hc _].
Qed.

Lemma plainByte_solid (c : ascii) : plainByte c = true -> solidByte c = true.
Proof.
  unfold plainByte, solidByte. cbv zeta. intros H.
  now apply andb_prop in H as [H _].
Qed.

Lemma TrimSpace_raw (n : string) :
  plain n = true -> TrimSpace ("{" ++ n ++ "}") = "{" ++ n ++ "}".
Proof.
  intros Hn.
  apply (TrimSpace_solid_ends _ "{" (n ++ "}") "}" (rev n ++ "{"));
    try reflexivity.
  change ("{" ++ n ++ "}") with (String "{" (n ++ String "}" "")).
  cbn [rev]. rewrite rev_append. reflexivity.
Qed.

Lemma rawTag_flanked (n : string) :
  rawTag ("{" ++ n ++ "}") = Ok (Some (varElement n true)).
Proof.
  unfold rawTag.
  change ("{" ++ n ++ "}") with (String "{"%char n ++ String "}"%char "").
  rewrite last_append_byte. simpl Ascii.eqb. cbv iota.
  change (String "{"%char n ++ String "}"%char "")
    with (String "{"%char (n ++ String "}"%char "")).
  now rewrite sliceChecked_flanked.
Qed.

Lemma isVarName_spec (n : string) :
  isVarName n = true ->
  plain n = true
  /\ exists c r, n = String c r
       /\ Ascii.eqb c "!" = false /\ Ascii.eqb c "#" = false
       /\ Ascii.eqb c "^" = false /\ Ascii.eqb c "/" = false
       /\ Ascii.eqb c ">" = false /\ Ascii.eqb c "=" = false
       /\ Ascii.eqb c "{" = false.
Proof.
  destruct n as [|c r]; [discriminate|]. unfold isVarName.
  intros H. apply andb_prop in H as [Hp Hc]. split; [exact Hp|].
  exists c, r. split; [reflexivity|].
  apply negb_true_iff in Hc. cbn [existsb] in Hc.
  repeat (apply orb_false_elim in Hc as [? Hc]). now repeat split.
Qed.


End FlatParse.

Section FlatRender.

Variable Sprint : value -> string.



End FlatRender.


(** ** Values *)




(** ** Names with several dots *)

Lemma joinDots_not_dot (k : string) (ks : list string) (rest : string) :
  k <> "" -> k ++ "." ++ rest <> ".".
Proof. destruct k; [congruence | destruct k; discriminate]. Qed.

(** X8.  A dotted name is resolved one segment at a time from the left:
    the first segment against the whole chain, every further segment
    against the value found so far and nothing else. *)
Theorem lookup_path (k : string) (ks : list string) :
  Forall (fun s => s <> "" /\ containsByte "." s = false) (k :: ks) ->
  forall chain,
    lookup chain (joinDots k ks)
    = fold_left (fun v s => lookup [v] s) ks (lookup chain k).
Proof.
  revert k. induction ks as [|k' ks IH]; intros k H chain; [reflexivity|].
  inversion H as [|? ? [Hk Hd] Hrest]; subst.
  cbn [joinDots fold_left].
  rewrite lookup_dotted; [|exact Hd | now apply joinDots_not_dot with (ks := ks)].
  apply IH. exact Hrest.
Qed.

Lemma lookup_path_witness :
  lookup [Map [("a", Map [("b", Map [("c", Str "x")])]); ("c", Str "outer")]]
         "a.b.c"
  = Str "x".
Proof.
  assert (H : Forall (fun s => s <> "" /\ containsByte "." s = false)
                ["a"; "b"; "c"]).
  { repeat constructor; discriminate. }
  rewrite (lookup_path "a" ["b"; "c"] H). reflexivity.
Defined.

(** ** Panics that [lookup] recovers from *)

(** X20.  A panic inside [lookup] is recovered and gives the zero value,
    whatever the frames below hold: indexing a map that no string can
    index, a method whose call panics, and calling a method on a value
    read through an unexported field. *)
Theorem lookup_recovered (name : string) (rest : list value) :
  dotted name = false ->
  name <> "." ->
  (forall m, lookup (MapKeyed m :: rest) name = Invalid)
  /\ (forall ms u mth,
         findMethod name ms = Some mth -> m_Call mth = None ->
         lookup (Named ms u :: rest) name = Invalid)
  /\ (forall ms u mth,
         findMethod name ms = Some mth ->
         lookup (Unexported (Named ms u) :: rest) name = Invalid)
  /\ (forall fields u,
         FieldByName fields name = Unexported u -> IsValid u = true ->
         lookup (Struct fields :: rest) name = Unexported u
         /\ isEmpty (lookup (Struct fields :: rest) name) = None).
Proof.
  intros Hd Hn.
  assert (En : String.eqb name "." = false) by now apply String.eqb_neq.
  split; [|split; [|split]].
  - intros m. rewrite (lookup_plain _ _ Hd). cbn [lookupChain].
    unfold lookupFrame. cbn [walkFrame methodsOf findMethod find].
    now rewrite En.
  - intros ms u mth Hf Hc. rewrite (lookup_plain _ _ Hd). cbn [lookupChain].
    unfold lookupFrame. cbn [walkFrame methodsOf]. now rewrite Hf, Hc.
  - intros ms u mth Hf. rewrite (lookup_plain _ _ Hd). cbn [lookupChain].
    unfold lookupFrame. cbn [walkFrame methodsOf]. now rewrite Hf.
  - intros fields u Hf Hu.
    assert (E : lookup (Struct fields :: rest) name = Unexported u).
    { rewrite (lookup_plain _ _ Hd). cbn [lookupChain]. unfold lookupFrame.
      cbn [walkFrame methodsOf findMethod find]. rewrite En.
      cbn [underlying]. cbv zeta. rewrite Hf. cbn [IsValid]. now rewrite Hu. }
    split; [exact E|]. rewrite E. now apply isEmpty_unexported.
Qed.

Lemma lookup_recovered_witness :
  dotted "k" = false /\ "k" <> "."
  /\ lookup [MapKeyed [(Int 1, Str "x")]; Map [("k", Str "outer")]] "k"
     = Invalid.
Proof.
  assert (Hd : dotted "k" = false) by reflexivity.
  assert (Hn : "k" <> ".") by discriminate.
  split; [exact Hd|]. split; [exact Hn|].
  exact (proj1 (lookup_recovered "k" [Map [("k", Str "outer")]] Hd Hn)
           [(Int 1, Str "x")]).
Defined.

(** ** Rendering under a chain that is not empty *)

Section RenderTotal.

Variable Sprint : value -> string.

















(** ** Chains that look alike *)

Lemma lookupFuel_sameView (ch1 ch2 : list value) :
  (forall name, lookupChain name ch1 = lookupChain name ch2) ->
  forall n name, lookupFuel n ch1 name = lookupFuel n ch2 name.
Proof.
  intros H. induction n as [|n IH]; intros name; rewrite !lookupFuel_eq.
  - destruct (dotted name); [reflexivity | apply H].
  - destruct (dotted name); [|apply H].
    destruct (SplitN2 name ".") as [|h [|r [|? ?]]]; try reflexivity.
    now rewrite IH.
Qed.

Lemma lastFrame_cons (x : value) (ch : list value) :
  lastFrame (x :: ch) = match lastFrame ch with
                        | Some l => Some l
                        | None => Some x
                        end.
Proof.
  unfold lastFrame. destruct ch as [|y ch]; [reflexivity|].
  cbn [List.length]. replace (S (S (List.length ch)) - 1) with (S (List.length ch)) by lia.
  replace (S (List.length ch) - 1) with (List.length ch) by lia.
  cbn [nth_error].
  destruct (nth_error (y :: ch) (List.length ch)) eqn:E; [reflexivity|].
  apply nth_error_None in E. simpl in E. lia.
Qed.

Lemma sameView_cons (x : value) (ch1 ch2 : list value) :
  sameView ch1 ch2 -> sameView (x :: ch1) (x :: ch2).
Proof.
  intros [Hl Hf]. split.
  - intros name. simpl. now rewrite Hl.
  - now rewrite !lastFrame_cons, Hf.
Qed.

Lemma renderElems_alike (es : list element) :
  Forall (rendersAlike Sprint) es ->
  forall ch1 ch2 buf,
    sameView ch1 ch2 ->
    renderElems (renderElement Sprint) es ch1 buf
    = renderElems (renderElement Sprint) es ch2 buf.
Proof.
  induction 1 as [|e es He _ IH]; intros ch1 ch2 buf Hv; simpl; [reflexivity|].
  rewrite (He ch1 ch2 buf Hv).
  destruct (renderElement Sprint e ch2 buf); try reflexivity. now apply IH.
Qed.

Lemma renderContexts_alike (es : list element) (ch1 ch2 : list value) :
  Forall (rendersAlike Sprint) es -> sameView ch1 ch2 ->
  forall contexts buf,
    renderContexts (renderElement Sprint) es ch1 contexts buf
    = renderContexts (renderElement Sprint) es ch2 contexts buf.
Proof.
  intros Hes Hv. induction contexts as [|ctx contexts IH]; intros buf; simpl;
    [reflexivity|].
  rewrite (renderElems_alike es Hes (ctx :: ch1) (ctx :: ch2) buf)
    by now apply sameView_cons.
  destruct (renderElems _ _ _ _); try reflexivity. apply IH.
Qed.

Lemma renderElement_alike (e : element) : rendersAlike Sprint e.
Proof.
  induction e as [s|n r|s IH|t IH] using element_nested_ind;
    intros ch1 ch2 buf Hv.
  - reflexivity.
  - rewrite !renderElement_var. unfold lookup.
    now rewrite (lookupFuel_sameView ch1 ch2 (proj1 Hv)).
  - simpl. unfold renderSectionWith, lookup.
    rewrite (lookupFuel_sameView ch1 ch2 (proj1 Hv)).
    pose proof Hv as [Hl Hf]. unfold lastFrame in Hf. rewrite Hf.
    destruct (nth_error ch2 _) as [ctx|]; [|reflexivity].
    destruct (isEmpty _) as [empty|]; [|reflexivity].
    destruct (_ || _); [reflexivity|].
    apply renderContexts_alike; [exact IH | exact Hv].
  - simpl. now apply renderElems_alike.
Qed.

Lemma sameView_twice (c : value) : sameView [c; c] [c].
Proof.
  split; [|reflexivity].
  intros name. simpl. now destruct (lookupFrame name c).
Qed.

(** X10.  Under a chain of one frame a section over a truthy scalar, and an
    inverted section over an empty value, render their children exactly as
    these render under that chain: the frame [renderSection] pushes is the
    one frame there is, and a chain that repeats its top frame resolves
    every name, and ends, like the chain itself. *)
Theorem renderSection_one_frame (sec : section_t) (c : value) (buf : string) :
  (inverted sec = false
   /\ isEmpty (lookup [c] (name sec)) = Some false
   /\ isScalar (indirect (lookup [c] (name sec))) = true)
  \/ (inverted sec = true /\ isEmpty (lookup [c] (name sec)) = Some true) ->
  renderSection Sprint sec [c] buf
  = renderElems (renderElement Sprint) (sec_elems sec) [c] buf.
Proof.
  intros H.
  assert (E : renderSection Sprint sec [c] buf
              = renderElems (renderElement Sprint) (sec_elems sec) [c; c] buf).
  { destruct H as [[Hi [He Hs]]|[Hi He]].
    - now apply renderSection_scalar.
    - now apply renderSection_inverted. }
  rewrite E. apply renderElems_alike; [|apply sameView_twice].
  apply Forall_forall. intros e _. apply renderElement_alike.
Qed.

End RenderTotal.


Lemma renderSection_one_frame_witness :
  renderSection SprintScalar
    (mkSection "ok" false 1 [varElement "who" false])
    [Map [("ok", Bool true); ("who", Str "me")]] ""
  = Ok "me".
Proof.
  rewrite renderSection_one_frame; [reflexivity|].
  left. repeat split.
Defined.

(** ** Layouts *)

Section LayoutFacts.

Variable Sprint : value -> string.
Variable env : Env.
Hypothesis Sprint_string : forall s, Sprint (Str s) = s.

Lemma lookup_content (content : string) (context : list value) :
  lookup (Map [("content", Str content)] :: context) "content" = Str content.
Proof. reflexivity. Qed.

Lemma layout_raw_parse (fuel : nat) :
  2 <= fuel ->
  ParseString env fuel "{{{content}}}"
  = Ok (mkTemplate "{{{content}}}" "{{" "}}" 13 1 (Getenv_CWD env)
          [textElement ""; varElement "content" true; textElement ""]).
Proof.
  intros Hf. apply (ParseString_fuel_le env 2 fuel); [exact Hf | | discriminate].
  vm_compute. reflexivity.
Qed.

Lemma layout_escaped_parse (fuel : nat) :
  2 <= fuel ->
  ParseString env fuel "{{content}}"
  = Ok (mkTemplate "{{content}}" "{{" "}}" 11 1 (Getenv_CWD env)
          [textElement ""; varElement "content" false; textElement ""]).
Proof.
  intros Hf. apply (ParseString_fuel_le env 2 fuel); [exact Hf | | discriminate].
  vm_compute. reflexivity.
Qed.

(** X11.  Under the layout [{{{content}}}] a template renders in its
    layout to what it renders to on its own, parse errors and panics
    included: the layout finds the rendered content under the name
    [content], in front of the contexts of the caller.  Under the layout
    [{{content}}] the rendered content is escaped once more. *)
Theorem RenderInLayout_content (fuel : nat) (data : string)
    (context : list value) :
  2 <= fuel ->
  RenderInLayout Sprint env fuel data "{{{content}}}" context
  = Render Sprint env fuel data context
  /\ (forall t out,
         ParseString env fuel data = Ok t ->
         Template_Render Sprint t context = Ok out ->
         RenderInLayout Sprint env fuel data "{{content}}" context
         = Ok (htmlEscape out)).
Proof.
  intros Hf. split.
  - unfold RenderInLayout, Render. rewrite (layout_raw_parse fuel Hf).
    destruct (ParseString env fuel data) as [t|e| |]; try reflexivity.
    unfold Template_RenderInLayout.
    destruct (Template_Render Sprint t context) as [content|e| |];
      try reflexivity.
    unfold Template_Render, renderTemplate. cbn [elems renderElems].
    cbn [renderElement]. rewrite lookup_content. cbn [IsValid].
    rewrite Sprint_string. simpl. now rewrite append_nil_r.
  - intros t out P R. unfold RenderInLayout.
    rewrite (layout_escaped_parse fuel Hf), P.
    unfold Template_RenderInLayout. rewrite R.
    unfold Template_Render, renderTemplate. cbn [elems renderElems].
    cbn [renderElement]. rewrite lookup_content. cbn [IsValid].
    rewrite Sprint_string. simpl. now rewrite append_nil_r.
Qed.

End LayoutFacts.

Lemma RenderInLayout_content_witness :
  (forall s, SprintScalar (Str s) = s)
  /\ 2 <= 3
  /\ RenderInLayout SprintScalar noFiles 3 "<b>{{x}}</b>" "{{{content}}}"
       [Map [("x", Str "1"); ("content", Str "mine")]]
     = Ok "<b>1</b>".
Proof.
  assert (HS : forall s, SprintScalar (Str s) = s) by reflexivity.
  assert (Hf : 2 <= 3) by lia.
  split; [exact HS|]. split; [exact Hf|].
  rewrite (proj1 (RenderInLayout_content SprintScalar noFiles HS 3
                    "<b>{{x}}</b>"
                    [Map [("x", Str "1"); ("content", Str "mine")]] Hf)).
  vm_compute. reflexivity.
Defined.

(** ** The helpers of the package *)

Section HelperFacts.




Lemma cleanPath_slash : cleanPath "/" = "/".
Proof. reflexivity. Qed.



(** X13.  [contentType] returns a value that holds a slash as it is;
    anything else is looked up as a file extension, with a dot put in
    front when there is none, so that an extension gives the same type
    with and without its dot. *)
Theorem contentType_spec (TypeByExtension : string -> string) (val : string) :
  (containsByte "/" val = true -> contentType TypeByExtension val = val)
  /\ (containsByte "/" val = false ->
      contentType TypeByExtension ("." ++ val) = TypeByExtension ("." ++ val)
      /\ (hasPrefix "." val = false ->
          contentType TypeByExtension val
          = contentType TypeByExtension ("." ++ val))
      /\ (hasPrefix "." val = true ->
          contentType TypeByExtension val = TypeByExtension val)).
Proof.
  unfold contentType. split.
  - now intros ->.
  - intros H. cbn [containsByte append]. rewrite H.
    change (Ascii.eqb "." "/") with false. cbn [orb].
    change (hasPrefix "." (String "." val)) with true. cbn [negb].
    split; [reflexivity|]. split; now intros ->.
Qed.

End HelperFacts.

(* ================================================================= *)
(** ** Templates with nested sections *)

Section TreeParse.

Variable env : Env.

Lemma inlineText_noBrace (s : string) : inlineText s = true -> noBrace s = true.
Proof. unfold inlineText. intros H. now apply andb_prop in H as [H _]. Qed.

Lemma count_absent (c : ascii) (s : string) :
  containsByte c s = false -> count c s = 0.
Proof.
  induction s as [|d s IH]; [reflexivity|]. simpl. intros H.
  apply orb_false_elim in H as [Hd Hs]. now rewrite Hd, (IH Hs).
Qed.

Lemma inlineText_count (s : string) : inlineText s = true -> count newline s = 0.
Proof.
  unfold inlineText. intros H. apply andb_prop in H as [_ H].
  apply negb_true_iff in H. now apply count_absent.
Qed.

(** Text without a newline, followed by a brace, gives [skipNewline]
    nothing to skip. *)
Lemma skipNewline_inline (t : Template) (f z : string) :
  inlineText f = true ->
  drop (p t) (data t) = f ++ String "{" z ->
  skipNewline t = t.
Proof.
  unfold inlineText. intros H E. apply andb_prop in H as [_ H].
  apply negb_true_iff in H. unfold skipNewline.
  rewrite !byteIs_drop, E.
  destruct f as [|c f]; [reflexivity|].
  simpl in H. apply orb_false_elim in H as [Hc Hf]. cbn [append].
  rewrite Hc. replace (p t + 1) with (S (p t)) by lia.
  cbn [append] in E. rewrite (drop_S _ _ _ _ E).
  destruct f as [|c' f]; [cbn [append]; now rewrite andb_false_r|].
  simpl in Hf. apply orb_false_elim in Hf as [Hc' _]. cbn [append].
  now rewrite Hc', andb_false_r.
Qed.

(** Reading the literal text before an open delimiter, on one line. *)
Lemma read_open_inline (t : Template) (pre rest : string) :
  inlineText pre = true ->
  drop (p t) (data t) = pre ++ "{{" ++ rest ->
  readString t "{{" =
    ReadOk (pre ++ "{{") (set_scan t (p t + String.length pre + 2) (curline t))
  /\ drop (p t + String.length pre + 2) (data t) = rest.
Proof.
  intros Hpre E.
  destruct (read_open t pre rest (inlineText_noBrace _ Hpre) E) as [R D].
  rewrite (inlineText_count _ Hpre), Nat.add_0_r in R. now split.
Qed.

Lemma printNode_starts (q : tnode) : exists x, printNode q = String "{" x.
Proof. destruct q; eexists; reflexivity. Qed.

(** What follows the opening tag of a section starts with text on one
    line and a brace. *)
Lemma printDoc_starts (d : tdoc) (z : string) :
  docWf d = true ->
  exists f z', inlineText f = true
               /\ printDoc d ++ "{{/" ++ z = f ++ String "{" z'.
Proof.
  destruct d as [final|pre q rest]; cbn [docWf printDoc]; intros H.
  - exists final. eexists. split; [exact H|]. cbn [append]. reflexivity.
  - apply andb_prop in H as [H _]. apply andb_prop in H as [H _].
    destruct (printNode_starts q) as [x Ex]. rewrite Ex.
    exists pre. eexists. split; [exact H|].
    rewrite !append_assoc. cbn [append]. reflexivity.
Qed.

Ltac open_tag t pre Hpre Hd Ho Hc D1 :=
  let R1 := fresh "R1" in
  destruct (read_open_inline t pre _ Hpre Hd) as [R1 D1]; rewrite R1; cbv zeta;
  cbn [data p otag ctag curline add_elem set_scan]; rewrite ?Ho, ?Hc;
  replace (String.length (pre ++ "{{") - String.length "{{")
    with (String.length pre) by (rewrite length_append; simpl; lia);
  rewrite take_length_append.

Ltac close_tag tb Htb Hc D1 D2 :=
  let R2 := fresh "R2" in
  match goal with
  | |- context [readString ?u "}}"] =>
      destruct (read_close u tb "}" _ Htb D1) as [R2 D2]; rewrite R2
  end;
  cbn [data p otag ctag curline add_elem set_scan]; rewrite ?Hc;
  replace (String.length (tb ++ "}}") - String.length "}}")
    with (String.length tb) by (rewrite !length_append; simpl; lia);
  rewrite take_length_append, (TrimSpace_plain _ Htb).

Ltac raw_tag n Hq Hc D1 D2 :=
  let R2 := fresh "R2" in
  let Hb := fresh "Hb" in
  assert (Hb : plain ("{" ++ n) = true) by exact Hq;
  match goal with
  | |- context [readString ?u ("}" ++ "}}")] =>
      destruct (read_close u ("{" ++ n) "}}" _ Hb D1) as [R2 D2];
      change ("}" ++ "}}") with (String "}"%char "}}"); rewrite R2
  end;
  cbn [data p otag ctag curline add_elem set_scan]; rewrite ?Hc;
  replace (take _ (("{" ++ n) ++ String "}" "}}")) with ("{" ++ n ++ "}")
    by (replace (("{" ++ n) ++ String "}" "}}") with (("{" ++ n ++ "}") ++ "}}")
          by (simpl; now rewrite !append_assoc);
        replace (String.length (("{" ++ n ++ "}") ++ "}}") - String.length "}}")
          with (String.length ("{" ++ n ++ "}"))
          by (rewrite !length_append; simpl; lia);
        now rewrite take_length_append);
  rewrite (TrimSpace_raw _ Hq);
  change ("{" ++ n ++ "}") with (String "{"%char (n ++ "}")) at 1;
  cbv beta iota;
  change (Ascii.eqb "{" "!") with false; change (Ascii.eqb "{" "#") with false;
  change (Ascii.eqb "{" "^") with false; change (Ascii.eqb "{" "/") with false;
  change (Ascii.eqb "{" ">") with false; change (Ascii.eqb "{" "=") with false;
  change (Ascii.eqb "{" "{") with true; cbn [orb]; cbv beta iota;
  change (String "{"%char (n ++ "}")) with ("{" ++ n ++ "}");
  rewrite rawTag_flanked.

Ltac comment_tag c Hq Hc D1 D2 :=
  let Hb := fresh "Hb" in
  assert (Hb : plain ("!" ++ c) = true) by exact Hq;
  close_tag ("!" ++ c) Hb Hc D1 D2;
  change ("!" ++ c) with (String "!"%char c); cbv beta iota;
  change (Ascii.eqb "!" "!") with true; cbv beta iota.

Ltac section_tag inv nm body Hnm Hbody Hc D1 D2 :=
  let Hb := fresh "Hb" in
  let f := fresh "f" in
  let z := fresh "z" in
  let Hf' := fresh "Hf'" in
  let Ez := fresh "Ez" in
  assert (Hb : plain (String (sectionMark inv) nm) = true)
    by (destruct inv; exact Hnm);
  close_tag (String (sectionMark inv) nm) Hb Hc D1 D2;
  cbv beta iota;
  replace (Ascii.eqb (sectionMark inv) "!") with false
    by (destruct inv; reflexivity);
  replace (Ascii.eqb (sectionMark inv) "#" || Ascii.eqb (sectionMark inv) "^")
    with true by (destruct inv; reflexivity);
  cbv beta iota;
  rewrite (TrimSpace_plain _ Hnm);
  match type of D2 with
  | _ = printDoc body ++ "{{/" ++ ?y =>
      destruct (printDoc_starts body y Hbody) as [f [z [Hf' Ez]]]
  end;
  match goal with
  | |- context [skipNewline ?u] =>
      rewrite (skipNewline_inline u f z Hf' (eq_trans D2 Ez))
  end.

Ltac top_rest IHtop fuel Hf Ho Hc D2 :=
  let t2 := fresh "t2" in
  let t' := fresh "t'" in
  let P := fresh "P" in
  let E := fresh "E" in
  match goal with |- context [parse env fuel ?x] => set (t2 := x) end;
  destruct (IHtop fuel t2) as [t' [P [E ?]]];
    [simpl in Hf; lia | exact Ho | exact Hc | exact D2 |];
  exists t'; split; [exact P|]; split; [|assumption];
  rewrite E; unfold t2;
  cbn [elems add_elem set_scan curline docElemsOf nodeElems];
  rewrite <- ?app_assoc; reflexivity.

Ltac body_rest IHbody fuel rest Hf Ho Hc Hn D2 :=
  let q' := fresh "q'" in
  let P := fresh "P" in
  let D := fresh "D" in
  match goal with
  | |- context [parseSection env fuel ?x ?s] =>
      destruct (IHbody fuel x s rest) as [q' [P D]];
        [simpl in Hf; lia | exact Ho | exact Hc | exact Hn | exact D2 |]
  end;
  exists q'; split; [|exact D]; rewrite P;
  unfold sec_add_elem, set_scan, add_elem;
  cbn [data otag ctag dir elems p curline name inverted startline sec_elems
       docElemsOf nodeElems app];
  rewrite <- ?app_assoc; reflexivity.

Lemma parse_tree (d : tdoc) :
  docWf d = true -> parsesTop env d /\ parsesBody env d.
Proof.
  induction d using tdoc_tnode_ind
    with (P := fun q =>
                 match q with
                 | TSection _ _ body => docWf body = true -> parsesBody env body
                 | _ => True
                 end).
  - exact I.
  - exact I.
  - exact I.
  - cbn beta iota. intros Hb. now apply IHd.
  - intros Hok. simpl in Hok. split.
    + intros fuel t Hf Ho Hc Hd.
      destruct fuel as [|fuel]; [simpl in Hf; lia|].
      change (parse env (S fuel) t)
        with (parseRound env (parseSection env fuel) (parse env fuel) t).
      unfold parseRound. rewrite Ho. simpl in Hd.
      rewrite (read_eof t final (inlineText_noBrace _ Hok) Hd).
      eexists. split; [reflexivity|]. cbn [elems otag ctag add_elem]. auto.
    + intros fuel t sec rest Hf Ho Hc Hn Hd.
      destruct fuel as [|fuel]; [simpl in Hf; lia|].
      change (parseSection env (S fuel) t sec)
        with (parseSectionRound env (parseSection env fuel) (parse env fuel) t sec).
      unfold parseSectionRound. rewrite Ho. cbn [printDoc] in Hd.
      open_tag t final Hok Hd Ho Hc D1.
      replace (byteIs (data t) (p t + String.length final + 2) "{") with false
        by (rewrite byteIs_drop, D1; reflexivity).
      assert (Hb : plain ("/" ++ name sec) = true) by exact Hn.
      close_tag ("/" ++ name sec) Hb Hc D1 D2.
      change ("/" ++ name sec) with (String "/"%char (name sec)). cbv beta iota.
      change (Ascii.eqb "/" "!") with false. change (Ascii.eqb "/" "#") with false.
      change (Ascii.eqb "/" "^") with false. change (Ascii.eqb "/" "/") with true.
      cbn [orb]. cbv beta iota.
      rewrite (TrimSpace_plain _ Hn). cbn [name sec_add_elem].
      rewrite String.eqb_refl. cbn [negb].
      eexists. split; [|exact D2].
      unfold sec_add_elem, set_scan. cbn [data otag ctag dir elems docElemsOf].
      reflexivity.
  - intros Hok. cbn [docWf] in Hok.
    apply andb_prop in Hok as [Hok Hrest]. apply andb_prop in Hok as [Hpre Hq].
    destruct (IHd0 Hrest) as [IHtop IHbody]. clear IHd0.
    split.
    + intros fuel t Hf Ho Hc Hd.
      destruct fuel as [|fuel]; [simpl in Hf; lia|].
      change (parse env (S fuel) t)
        with (parseRound env (parseSection env fuel) (parse env fuel) t).
      unfold parseRound. rewrite Ho. cbn [printDoc] in Hd.
      destruct q as [n|n|c|inv nm body]; cbn [printNode nodeWf nodeSize] in *.
      * destruct (isVarName_spec n Hq)
          as [Hn [c0 [r [En [N1 [N2 [N3 [N4 [N5 [N6 N7]]]]]]]]]].
        rewrite !append_assoc in Hd.
        open_tag t pre Hpre Hd Ho Hc D1.
        replace (byteIs (data t) (p t + String.length pre + 2) "{") with false
          by (rewrite byteIs_drop, D1, En; simpl; now rewrite N7).
        close_tag n Hn Hc D1 D2.
        subst n. cbv beta iota. rewrite N1, N2, N3, N4, N5, N6, N7. cbn [orb].
        top_rest IHtop fuel Hf Ho Hc D2.
      * rewrite !append_assoc in Hd.
        open_tag t pre Hpre Hd Ho Hc D1.
        replace (byteIs (data t) (p t + String.length pre + 2) "{") with true
          by (rewrite byteIs_drop, D1; reflexivity).
        raw_tag n Hq Hc D1 D2.
        top_rest IHtop fuel Hf Ho Hc D2.
      * rewrite !append_assoc in Hd.
        open_tag t pre Hpre Hd Ho Hc D1.
        replace (byteIs (data t) (p t + String.length pre + 2) "{") with false
          by (rewrite byteIs_drop, D1; reflexivity).
        comment_tag c Hq Hc D1 D2.
        top_rest IHtop fuel Hf Ho Hc D2.
      * apply andb_prop in Hq as [Hnm Hbody].
        rewrite !append_assoc in Hd.
        open_tag t pre Hpre Hd Ho Hc D1.
        replace (byteIs (data t) (p t + String.length pre + 2) "{") with false
          by (rewrite byteIs_drop, D1; destruct inv; reflexivity).
        section_tag inv nm body Hnm Hbody Hc D1 D2.
        replace (Ascii.eqb (sectionMark inv) "^") with inv by now destruct inv.
        match goal with
        | |- context [parseSection env fuel ?u ?se] =>
            destruct (IHd Hbody fuel u se (printDoc d)) as [q' [P D]];
              [simpl in Hf; lia | exact Ho | exact Hc | exact Hnm | exact D2
              | rewrite P]
        end.
        cbv beta iota.
        cbn [name inverted startline sec_elems curline set_scan add_elem app].
        top_rest IHtop fuel Hf Ho Hc D.
    + intros fuel t sec rest Hf Ho Hc Hn Hd.
      destruct fuel as [|fuel]; [simpl in Hf; lia|].
      change (parseSection env (S fuel) t sec)
        with (parseSectionRound env (parseSection env fuel) (parse env fuel) t sec).
      unfold parseSectionRound. rewrite Ho. cbn [printDoc] in Hd.
      destruct q as [n|n|c|inv nm body]; cbn [printNode nodeWf nodeSize] in *.
      * destruct (isVarName_spec n Hq)
          as [Hn' [c0 [r [En [N1 [N2 [N3 [N4 [N5 [N6 N7]]]]]]]]]].
        rewrite !append_assoc in Hd.
        open_tag t pre Hpre Hd Ho Hc D1.
        replace (byteIs (data t) (p t + String.length pre + 2) "{") with false
          by (rewrite byteIs_drop, D1, En; simpl; now rewrite N7).
        close_tag n Hn' Hc D1 D2.
        subst n. cbv beta iota. rewrite N1, N2, N3, N4, N5, N6, N7. cbn [orb].
        body_rest IHbody fuel rest Hf Ho Hc Hn D2.
      * rewrite !append_assoc in Hd.
        open_tag t pre Hpre Hd Ho Hc D1.
        replace (byteIs (data t) (p t + String.length pre + 2) "{") with true
          by (rewrite byteIs_drop, D1; reflexivity).
        raw_tag n Hq Hc D1 D2.
        body_rest IHbody fuel rest Hf Ho Hc Hn D2.
      * rewrite !append_assoc in Hd.
        open_tag t pre Hpre Hd Ho Hc D1.
        replace (byteIs (data t) (p t + String.length pre + 2) "{") with false
          by (rewrite byteIs_drop, D1; reflexivity).
        comment_tag c Hq Hc D1 D2.
        body_rest IHbody fuel rest Hf Ho Hc Hn D2.
      * apply andb_prop in Hq as [Hnm Hbody].
        rewrite !append_assoc in Hd.
        open_tag t pre Hpre Hd Ho Hc D1.
        replace (byteIs (data t) (p t + String.length pre + 2) "{") with false
          by (rewrite byteIs_drop, D1; destruct inv; reflexivity).
        section_tag inv nm body Hnm Hbody Hc D1 D2.
        replace (Ascii.eqb (sectionMark inv) "^") with inv by now destruct inv.
        match goal with
        | |- context [parseSection env fuel ?u ?se] =>
            destruct (IHd Hbody fuel u se
                        (printDoc d ++ "{{/" ++ name sec ++ "}}" ++ rest))
              as [q1 [P1 D3]];
              [simpl in Hf; lia | exact Ho | exact Hc | exact Hnm | exact D2
              | rewrite P1]
        end.
        cbv beta iota.
        cbn [name inverted startline sec_elems curline set_scan add_elem app].
        body_rest IHbody fuel rest Hf Ho Hc Hn D3.
Qed.

(** X14.  A template written on one line from literal text without
    braces, variables, raw variables, comments and sections, nested to any
    depth, each section closed by the tag of its own name, parses into the
    tree it was written from: one text element before every tag and one at
    the end of the template and of every section body, every section
    recorded with its name, its inversion and line 1. *)
Theorem ParseString_tree (d : tdoc) (fuel : nat) :
  docWf d = true ->
  docSize d <= fuel ->
  exists t,
    ParseString env fuel (printDoc d) = Ok t
    /\ elems t = docElemsOf 1 d.
Proof.
  intros Hok Hf.
  destruct (parse_tree d Hok) as [Htop _].
  destruct (Htop fuel (newTemplate (printDoc d) (Getenv_CWD env)))
    as [t [P [E _]]]; try reflexivity; try assumption.
  exists t. split; [exact P | exact E].
Qed.

End TreeParse.

Lemma ParseString_tree_witness :
  docWf (TCons "a" (TSection false "x"
                      (TCons "b" (TSection true "y" (TEnd "c")) (TEnd "d")))
               (TEnd "e")) = true
  /\ exists t,
       ParseString noFiles 5 "a{{#x}}b{{^y}}c{{/y}}d{{/x}}e" = Ok t
       /\ elems t =
          [textElement "a";
           sectionElement
             (mkSection "x" false 1
                [textElement "b";
                 sectionElement (mkSection "y" true 1 [textElement "c"]);
                 textElement "d"]);
           textElement "e"].
Proof.
  split; [reflexivity|].
  refine (ParseString_tree noFiles
            (TCons "a" (TSection false "x"
                          (TCons "b" (TSection true "y" (TEnd "c")) (TEnd "d")))
                   (TEnd "e")) 5 eq_refl _).
  simpl. lia.
Defined.

Section TreeRender.

Variable Sprint : value -> string.





End TreeRender.



(* ================================================================= *)
(** ** Errors at a tag *)

Section TagErrors.

Variable env : Env.

Ltac first_read pre Hpre :=
  let R1 := fresh "R1" in
  let D1 := fresh "D1" in
  unfold ParseString;
  change (parse env (S ?f) ?t)
    with (parseRound env (parseSection env f) (parse env f) t);
  unfold parseRound; cbn [otag newTemplate];
  match goal with
  | |- context [readString ?t "{{"] =>
      destruct (read_open t pre _ Hpre eq_refl) as [R1 D1]; rewrite R1
  end;
  cbv zeta; cbn [data p otag ctag curline add_elem set_scan newTemplate] in *.

(** X16.  The errors of a tag carry the line counter as it stands when
    the error is found.  For a closing tag at the top level and for a tag
    without content that is the line on which the tag is closed: one more
    than the newlines of the text before the tag and of the tag itself,
    so the line the tag opens on when the tag holds no newline.  For an
    open delimiter never followed by the closing one it is the line the
    tag opens on.  The same holds, counted from the current line, of a
    tag met later in the parse, under whatever delimiters are active. *)
Theorem ParseString_tag_errors (pre : string) (fuel : nat) :
  noBrace pre = true ->
  (forall body rest r,
      containsByte "}" body = false ->
      byteIs body 0 "{" = false ->
      TrimSpace body = String "/" r ->
      ParseString env (S fuel) (pre ++ "{{" ++ body ++ "}}" ++ rest)
      = Err (parseError (1 + count newline pre + count newline body)
               "unmatched close tag"))
  /\ (forall body rest,
         containsByte "}" body = false ->
         byteIs body 0 "{" = false ->
         TrimSpace body = "" ->
         ParseString env (S fuel) (pre ++ "{{" ++ body ++ "}}" ++ rest)
         = Err (parseError (1 + count newline pre + count newline body)
                  "empty tag"))
  /\ (forall body,
         absent "}}" body ->
         ParseString env (S fuel) (pre ++ "{{" ++ body)
         = Err (parseError (1 + count newline pre) "unmatched open tag"))
  /\ (forall t body rest r,
         tagAhead t pre body rest ->
         TrimSpace body = String "/" r ->
         parse env (S fuel) t
         = Err (parseError (curline (afterTag t pre body))
                  "unmatched close tag"))
  /\ (forall t body rest,
         tagAhead t pre body rest ->
         TrimSpace body = "" ->
         parse env (S fuel) t
         = Err (parseError (curline (afterTag t pre body)) "empty tag"))
  /\ (forall t post,
         otag t <> "" -> ctag t <> "" ->
         nextOccurrence (otag t) (drop (p t) (data t)) pre post ->
         absent (ctag t) post ->
         parse env (S fuel) t
         = Err (parseError (curline (afterText t pre (otag t)))
                  "unmatched open tag"))
  /\ ParseString env (S fuel) ("{{" ++ String newline "}}")
     = Err (parseError 2 "empty tag")
  /\ ParseString env (S fuel) ("{{/" ++ String newline "x}}")
     = Err (parseError 2 "unmatched close tag").
Proof.
  intros Hpre.
  assert (Close : forall body rest r,
             containsByte "}" body = false ->
             byteIs body 0 "{" = false ->
             TrimSpace body = String "/" r ->
             ParseString env (S fuel) (pre ++ "{{" ++ body ++ "}}" ++ rest)
             = Err (parseError (1 + count newline pre + count newline body)
                      "unmatched close tag")).
  { intros body rest r Hbody Hb HT. unfold ParseString.
    set (t := newTemplate _ _).
    assert (H : tagAhead t pre body rest)
      by (now apply tagAhead_default).
    rewrite (parse_close_tag env fuel t pre body rest r H HT).
    now destruct (afterTag_curline t pre body eq_refl eq_refl) as [-> _]. }
  assert (Empty : forall body rest,
             containsByte "}" body = false ->
             byteIs body 0 "{" = false ->
             TrimSpace body = "" ->
             ParseString env (S fuel) (pre ++ "{{" ++ body ++ "}}" ++ rest)
             = Err (parseError (1 + count newline pre + count newline body)
                      "empty tag")).
  { intros body rest Hbody Hb HT. unfold ParseString.
    set (t := newTemplate _ _).
    assert (H : tagAhead t pre body rest)
      by (now apply tagAhead_default).
    rewrite (parse_empty_tag env fuel t pre body rest H HT).
    now destruct (afterTag_curline t pre body eq_refl eq_refl) as [-> _]. }
  split; [exact Close|]. split; [exact Empty|].
  split; [|split; [|split; [|split; [|split]]]].
  - intros body Habs. unfold ParseString. set (t := newTemplate _ _).
    rewrite (parse_open_tag env fuel t pre body); try discriminate.
    + unfold afterText. cbn [curline set_scan t newTemplate otag].
      change (byteIs "{{" 0 newline) with false. cbv iota.
      now rewrite Nat.add_0_r.
    + split; [reflexivity|]. intros pre' post' E'.
      eapply (noByte_before "{" pre); [|exact E'].
      unfold noBrace in Hpre. now destruct (containsByte "{" pre).
    + exact Habs.
  - intros t body rest r. apply parse_close_tag.
  - intros t body rest. apply parse_empty_tag.
  - intros t post. apply parse_open_tag.
  - apply (ParseString_fuel_le env 1 (S fuel)); [lia | | discriminate].
    vm_compute. reflexivity.
  - apply (ParseString_fuel_le env 1 (S fuel)); [lia | | discriminate].
    vm_compute. reflexivity.
Qed.

(** X17.  A section closed by the tag of another name is an error that
    names the closing tag.  The line it carries counts the newlines of the
    text before the section and of the text inside it, except a line break
    that directly follows the opening tag: that one is skipped without
    being counted. *)
Theorem ParseString_interleaved (inv : bool) (pre a text b rest : string)
    (fuel : nat) :
  noBrace pre = true ->
  plain a = true ->
  noBrace text = true ->
  plain b = true ->
  a <> b ->
  ParseString env (S (S fuel))
    (pre ++ "{{" ++ String (sectionMark inv) a ++ "}}"
         ++ text ++ "{{/" ++ b ++ "}}" ++ rest)
  = Err (parseError
           (1 + count newline pre + count newline (afterNewline text))
           ("interleaved closing tag: " ++ b)).
Proof.
  intros Hpre Ha Htext Hb Hab.
  first_read pre Hpre.
  replace (byteIs _ _ "{") with false
    by (rewrite byteIs_drop, D1; destruct inv; reflexivity).
  assert (Hm : plain (String (sectionMark inv) a) = true)
    by (destruct inv; exact Ha).
  match goal with
  | |- context [readString ?u "}}"] =>
      destruct (read_close u (String (sectionMark inv) a) "}" _ Hm D1)
        as [R2 D2]; rewrite R2
  end.
  cbn [data p otag ctag curline add_elem set_scan newTemplate] in *.
  replace (String.length (String (sectionMark inv) a ++ "}}") - String.length "}}")
    with (String.length (String (sectionMark inv) a))
    by (rewrite !length_append; simpl; lia).
  rewrite take_length_append, (TrimSpace_plain _ Hm). cbv beta iota.
  replace (Ascii.eqb (sectionMark inv) "!") with false
    by (destruct inv; reflexivity).
  replace (Ascii.eqb (sectionMark inv) "#" || Ascii.eqb (sectionMark inv) "^")
    with true by (destruct inv; reflexivity).
  cbv beta iota. rewrite (TrimSpace_plain _ Ha).
  match goal with
  | |- context [skipNewline ?u] =>
      destruct (skipNewline_after u) as [k [-> Dk]]
  end.
  cbn [data p otag ctag curline add_elem set_scan set_p newTemplate] in *.
  rewrite D2 in Dk.
  change (text ++ "{{/" ++ b ++ "}}" ++ rest)
    with (text ++ String "{" ("{/" ++ b ++ "}}" ++ rest)) in Dk.
  rewrite afterNewline_before_brace in Dk.
  change (parseSection env (S fuel) ?t ?s)
    with (parseSectionRound env (parseSection env fuel) (parse env fuel) t s).
  unfold parseSectionRound, set_p.
  cbn [otag ctag curline set_scan add_elem newTemplate].
  clear R1 R2.
  match goal with
  | |- context [readString ?u "{{"] =>
      destruct (read_open u (afterNewline text) _
                  (noBrace_afterNewline _ Htext) Dk) as [R3 D3]; rewrite R3
  end.
  cbv zeta. cbn [data p otag ctag curline add_elem set_scan newTemplate] in *.
  replace (byteIs _ _ "{") with false by (rewrite byteIs_drop, D3; reflexivity).
  assert (Hc : plain ("/" ++ b) = true) by exact Hb.
  match goal with
  | |- context [readString ?u "}}"] =>
      destruct (read_close u ("/" ++ b) "}" rest Hc D3) as [R4 _]; rewrite R4
  end.
  cbn [data p otag ctag curline add_elem set_scan newTemplate].
  replace (String.length (("/" ++ b) ++ "}}") - String.length "}}")
    with (String.length ("/" ++ b)) by (rewrite !length_append; simpl; lia).
  rewrite take_length_append, (TrimSpace_plain _ Hc).
  change ("/" ++ b) with (String "/"%char b). cbv beta iota.
  change (Ascii.eqb "/" "!") with false. change (Ascii.eqb "/" "#") with false.
  change (Ascii.eqb "/" "^") with false. change (Ascii.eqb "/" "/") with true.
  cbn [orb]. cbv beta iota.
  rewrite (TrimSpace_plain _ Hb). cbn [name sec_add_elem].
  replace (String.eqb b a) with false
    by (symmetry; apply String.eqb_neq; congruence).
  reflexivity.
Qed.

End TagErrors.

Lemma ParseString_tag_errors_witness :
  noBrace ("a" ++ String newline "b") = true
  /\ ParseString noFiles 1
       ("a" ++ String newline "b" ++ "{{/" ++ String newline "x}}")
     = Err (parseError 3 "unmatched close tag").
Proof.
  split; [reflexivity|].
  exact (proj1 (ParseString_tag_errors noFiles ("a" ++ String newline "b") 0
                  eq_refl)
           ("/" ++ String newline "x") "" (String newline "x")
           eq_refl eq_refl eq_refl).
Defined.

Lemma ParseString_interleaved_witness :
  ParseString noFiles 2
    ("{{#a}}" ++ String newline ("x" ++ String newline "{{/b}}"))
  = Err (parseError 2 "interleaved closing tag: b").
Proof.
  refine (ParseString_interleaved noFiles false "" "a"
            (String newline ("x" ++ String newline "")) "b" "" 0
            eq_refl eq_refl eq_refl eq_refl _).
  discriminate.
Defined.

(* ================================================================= *)
(** ** Templates read from files *)

Section FileFacts.

Variable Sprint : value -> string.
Variable env : Env.





End FileFacts.


